(** * DigitalEvidence: the evidence custody ledger

    A shallow embedding of the Vyper contract [DigitalEvidence.vy]
    (role registry, evidence registry, custody chain, status machine,
    file attachments and event log) and the properties of it that the
    design document states.

    Conventions of the embedding:
    - [uint256], [address] and [bytes32] values are integers ([Z]);
      [empty(address)] and [empty(bytes32)] are [0];
    - a [HashMap[K, V]] is a [gmap] read through a getter that returns
      the zero value of [V] at an absent key, as Vyper storage does;
    - a [DynArray[T, n]] is a [list T] whose [append] reverts at [n]
      elements;
    - an external function is a computation in a state-and-revert
      monad; a call that reverts is rolled back by [call];
    - a [String[n]] parameter is a [string] that is decoded before the
      function body runs: the call reverts, without a reason, when the
      argument is longer than [n] bytes; [len] counts bytes;
    - an [address] or [Status] argument is an integer in the range of
      its type. *)

From stdpp Require Import gmap strings list.
From Stdlib Require Import ZArith Lia.

Local Open Scope Z_scope.

(** ** Constants *)

Definition MAX_UINT256 : Z := 2 ^ 256 - 1.

Definition empty_address : Z := 0.
Definition empty_bytes32 : Z := 0.

(** [enum Status]: a Vyper 0.3 enum member is the flag [2^i] of its
    position [i]; [empty(Status)] is [0], which is no member. *)
Definition Status_Collected : Z := 1.
Definition Status_InAnalysis : Z := 2.
Definition Status_Archived : Z := 4.
Definition Status_Invalidated : Z := 8.

Definition ROLE_ADMIN : Z := 1.
Definition ROLE_POLICE : Z := 2.
Definition ROLE_LAB : Z := 4.
Definition ROLE_JUDGE : Z := 8.

Definition CUSTODY_CAPACITY : Z := 1000.
Definition FILES_CAPACITY : Z := 100.

(** ** Structs *)

Record Evidence := mkEvidence {
  id : Z;
  file_hash : Z;
  ipfs_cid : string;
  description : string;
  case_id : string;
  creator : Z;
  current_custodian : Z;
  created_at : Z;
  status : Z;
  exists_ : bool
}.

Record CustodyEvent := mkCustodyEvent {
  from_address : Z;
  to_address : Z;
  timestamp : Z;
  reason : string
}.

Record EvidenceFile := mkEvidenceFile {
  ef_file_hash : Z;
  ef_ipfs_cid : string;
  file_type : string;
  added_by : Z;
  added_at : Z
}.

(** The zero value of the [Evidence] struct: what storage holds at an
    id that was never written. *)
Definition empty_Evidence : Evidence :=
  mkEvidence 0 empty_bytes32 EmptyString EmptyString EmptyString
             empty_address empty_address 0 0 false.

(** ** Events *)

Inductive Event :=
| EvidenceRegistered (eid fhash : Z) (cid cas : string) (who ts : Z)
| CustodyTransferred (eid from_ to_ : Z) (why : string) (ts : Z)
| StatusChanged (eid old_status new_status changed_by ts : Z)
| EvidenceFileAdded (eid fhash : Z) (cid ftype : string) (who ts : Z)
| RoleGranted (account role granted_by : Z)
| RoleRevoked (account role revoked_by : Z).

(** ** State variables *)

Record State := mkState {
  admin : Z;
  evidence_counter : Z;
  evidences : gmap Z Evidence;
  custody_history : gmap Z (list CustodyEvent);
  evidence_files : gmap Z (list EvidenceFile);
  roles : gmap Z Z;
  registered_hashes : gmap Z bool;
  logs : list Event
}.

(** Reads of the storage maps, with Vyper's zero default. *)
Definition evidence_at (s : State) (i : Z) : Evidence :=
  default empty_Evidence (evidences s !! i).
Definition history_at (s : State) (i : Z) : list CustodyEvent :=
  default [] (custody_history s !! i).
Definition files_at (s : State) (i : Z) : list EvidenceFile :=
  default [] (evidence_files s !! i).
Definition roles_at (s : State) (a : Z) : Z :=
  default 0 (roles s !! a).
Definition registered_at (s : State) (h : Z) : bool :=
  default false (registered_hashes s !! h).

(** Writes of one state variable. *)
Definition set_evidence_counter (c : Z) (s : State) : State :=
  mkState (admin s) c (evidences s) (custody_history s) (evidence_files s)
          (roles s) (registered_hashes s) (logs s).
Definition set_evidence (i : Z) (e : Evidence) (s : State) : State :=
  mkState (admin s) (evidence_counter s) (<[i := e]> (evidences s))
          (custody_history s) (evidence_files s) (roles s)
          (registered_hashes s) (logs s).
Definition set_history (i : Z) (h : list CustodyEvent) (s : State) : State :=
  mkState (admin s) (evidence_counter s) (evidences s)
          (<[i := h]> (custody_history s)) (evidence_files s) (roles s)
          (registered_hashes s) (logs s).
Definition set_files (i : Z) (l : list EvidenceFile) (s : State) : State :=
  mkState (admin s) (evidence_counter s) (evidences s) (custody_history s)
          (<[i := l]> (evidence_files s)) (roles s) (registered_hashes s)
          (logs s).
Definition set_roles (a r : Z) (s : State) : State :=
  mkState (admin s) (evidence_counter s) (evidences s) (custody_history s)
          (evidence_files s) (<[a := r]> (roles s)) (registered_hashes s)
          (logs s).
Definition set_registered (h : Z) (b : bool) (s : State) : State :=
  mkState (admin s) (evidence_counter s) (evidences s) (custody_history s)
          (evidence_files s) (roles s) (<[h := b]> (registered_hashes s))
          (logs s).
Definition add_log (ev : Event) (s : State) : State :=
  mkState (admin s) (evidence_counter s) (evidences s) (custody_history s)
          (evidence_files s) (roles s) (registered_hashes s)
          (logs s ++ [ev]).

(** Writes of one field of a stored struct. *)
Definition with_custodian (c : Z) (e : Evidence) : Evidence :=
  mkEvidence (id e) (file_hash e) (ipfs_cid e) (description e) (case_id e)
             (creator e) c (created_at e) (status e) (exists_ e).
Definition with_status (st : Z) (e : Evidence) : Evidence :=
  mkEvidence (id e) (file_hash e) (ipfs_cid e) (description e) (case_id e)
             (creator e) (current_custodian e) (created_at e) st (exists_ e).

(** ** Reverts *)

(** One constructor per [assert]/[raise] of the contract, and three for
    the checks the compiler inserts: the bound of a [String[n]]
    argument, checked [uint256] addition and the bound of
    [DynArray.append]. *)
Inductive Revert :=
| Only_admin
| Unauthorized_role
| Evidence_does_not_exist
| Not_custodian
| Invalid_address
| Empty_string
| Empty_case_ID
| Invalid_hash
| Invalid_role
| Empty_IPFS_CID
| Evidence_already_registered
| Empty_reason
| New_custodian_has_no_role
| Cannot_transfer_to_self
| Status_unchanged
| Invalid_transition_from_Collected
| Invalid_transition_from_InAnalysis
| Cannot_transition_from_Archived
| Cannot_transition_from_Invalidated
| Empty_file_type
| Arithmetic_overflow
| DynArray_full
| Argument_out_of_bounds.

(** The reason string carried by a revert; the compiler's own checks
    revert without one. *)
Definition revert_message (r : Revert) : option string :=
  match r with
  | Only_admin => Some "Only admin"
  | Unauthorized_role => Some "Unauthorized role"
  | Evidence_does_not_exist => Some "Evidence does not exist"
  | Not_custodian => Some "Not custodian"
  | Invalid_address => Some "Invalid address"
  | Empty_string => Some "Empty string"
  | Empty_case_ID => Some "Empty case ID"
  | Invalid_hash => Some "Invalid hash"
  | Invalid_role => Some "Invalid role"
  | Empty_IPFS_CID => Some "Empty IPFS CID"
  | Evidence_already_registered => Some "Evidence already registered"
  | Empty_reason => Some "Empty reason"
  | New_custodian_has_no_role => Some "New custodian has no role"
  | Cannot_transfer_to_self => Some "Cannot transfer to self"
  | Status_unchanged => Some "Status unchanged"
  | Invalid_transition_from_Collected => Some "Invalid transition from Collected"
  | Invalid_transition_from_InAnalysis => Some "Invalid transition from InAnalysis"
  | Cannot_transition_from_Archived => Some "Cannot transition from Archived"
  | Cannot_transition_from_Invalidated => Some "Cannot transition from Invalidated"
  | Empty_file_type => Some "Empty file type"
  | Arithmetic_overflow => None
  | DynArray_full => None
  | Argument_out_of_bounds => None
  end.

(** The failure taxonomy of the design document, read off the revert;
    an oversized field is a validation failure there. *)
Inductive ErrorKind :=
| AuthorizationError
| ValidationError
| NotFoundError
| DuplicateError
| InvalidTransitionError
| CapacityExceeded.

Definition error_kind (r : Revert) : ErrorKind :=
  match r with
  | Only_admin | Unauthorized_role | Not_custodian => AuthorizationError
  | Evidence_does_not_exist => NotFoundError
  | Evidence_already_registered => DuplicateError
  | Invalid_transition_from_Collected | Invalid_transition_from_InAnalysis
  | Cannot_transition_from_Archived | Cannot_transition_from_Invalidated =>
      InvalidTransitionError
  | Arithmetic_overflow | DynArray_full => CapacityExceeded
  | Argument_out_of_bounds => ValidationError
  | _ => ValidationError
  end.

(** ** The state-and-revert monad *)

Inductive Result (A : Type) :=
| Success (a : A)
| Reverted (r : Revert).
Arguments Success {A} a.
Arguments Reverted {A} r.

(** A computation returns its result together with the storage as it
    stands when the computation stops, also when it stops at a revert:
    whether anything was written before a revert is then a property one
    can state. *)
Definition M (A : Type) : Type := State -> Result A * State.

Definition ret {A} (a : A) : M A := fun s => (Success a, s).

Definition bind {A B} (m : M A) (k : A -> M B) : M B :=
  fun s => match m s with
           | (Success a, s') => k a s'
           | (Reverted r, s') => (Reverted r, s')
           end.

Declare Scope ledger_scope.
Delimit Scope ledger_scope with ledger.
Notation "x <- c1 ;; c2" := (bind c1 (fun x => c2))
  (at level 100, c1 at next level, right associativity) : ledger_scope.
Notation "c1 ;; c2" := (bind c1 (fun _ => c2))
  (at level 100, right associativity) : ledger_scope.
Local Open Scope ledger_scope.

Definition load {A} (f : State -> A) : M A := fun s => (Success (f s), s).
Definition store (f : State -> State) : M unit := fun s => (Success tt, f s).
Definition raise {A} (r : Revert) : M A := fun s => (Reverted r, s).
Definition assert_ (b : bool) (r : Revert) : M unit :=
  if b then ret tt else raise r.
Definition log (ev : Event) : M unit := store (add_log ev).

(** Checked [uint256] addition. *)
Definition checked_add (a b : Z) : M Z :=
  assert_ (bool_decide (a + b <= MAX_UINT256)) Arithmetic_overflow ;;
  ret (a + b).

(** [~x] on [uint256]. *)
Definition uint256_not (x : Z) : Z := Z.lxor x MAX_UINT256.

Definition len (s : string) : Z := Z.of_nat (String.length s).

(** The transaction environment: [msg.sender] and [block.timestamp]. *)
Record Env := mkEnv {
  msg_sender : Z;
  block_timestamp : Z
}.

(** ** The contract *)

Module DigitalEvidence.

Section Body.

Variable tx : Env.

(** *** Modifiers (internal functions) *)

Definition _only_admin : M unit :=
  a <- load admin ;;
  assert_ (bool_decide (msg_sender tx = a)) Only_admin.

Definition _only_role (required_role : Z) : M unit :=
  r <- load (fun s => roles_at s (msg_sender tx)) ;;
  assert_ (bool_decide (Z.land r required_role <> 0)) Unauthorized_role.

Definition _evidence_exists (evidence_id : Z) : M unit :=
  e <- load (fun s => evidence_at s evidence_id) ;;
  assert_ (exists_ e) Evidence_does_not_exist.

Definition _only_custodian (evidence_id : Z) : M unit :=
  e <- load (fun s => evidence_at s evidence_id) ;;
  assert_ (bool_decide (current_custodian e = msg_sender tx)) Not_custodian.

Definition _validate_address (addr : Z) : M unit :=
  assert_ (bool_decide (addr <> empty_address)) Invalid_address.

Definition _validate_string (s : string) : M unit :=
  assert_ (bool_decide (len s > 0)) Empty_string.

Definition _validate_case_id (c : string) : M unit :=
  assert_ (bool_decide (len c > 0)) Empty_case_ID.

Definition _validate_hash (h : Z) : M unit :=
  assert_ (bool_decide (h <> empty_bytes32)) Invalid_hash.

(** A parameter of type [String[n]]: decoding the argument reverts
    when it is longer than [n]. *)
Definition decode_String (n : Z) (s : string) : M unit :=
  assert_ (bool_decide (len s <= n)) Argument_out_of_bounds.

(** [role in [ROLE_ADMIN, ROLE_POLICE, ROLE_LAB, ROLE_JUDGE]] *)
Definition role_in_list (role : Z) : bool :=
  bool_decide (role ∈ [ROLE_ADMIN; ROLE_POLICE; ROLE_LAB; ROLE_JUDGE]).

(** [DynArray.append] on the two per-evidence arrays. *)
Definition custody_history_append (evidence_id : Z) (ev : CustodyEvent)
  : M unit :=
  h <- load (fun s => history_at s evidence_id) ;;
  assert_ (bool_decide (Z.of_nat (length h) < CUSTODY_CAPACITY)) DynArray_full ;;
  store (set_history evidence_id (h ++ [ev])).

Definition evidence_files_append (evidence_id : Z) (f : EvidenceFile)
  : M unit :=
  l <- load (fun s => files_at s evidence_id) ;;
  assert_ (bool_decide (Z.of_nat (length l) < FILES_CAPACITY)) DynArray_full ;;
  store (set_files evidence_id (l ++ [f])).

(** *** RBAC *)

Definition grant_role (account role : Z) : M unit :=
  _only_admin ;;
  _validate_address account ;;
  assert_ (role_in_list role) Invalid_role ;;
  r <- load (fun s => roles_at s account) ;;
  store (set_roles account (Z.lor r role)) ;;
  log (RoleGranted account role (msg_sender tx)).

Definition revoke_role (account role : Z) : M unit :=
  _only_admin ;;
  _validate_address account ;;
  assert_ (role_in_list role) Invalid_role ;;
  r <- load (fun s => roles_at s account) ;;
  store (set_roles account (Z.land r (uint256_not role))) ;;
  log (RoleRevoked account role (msg_sender tx)).

Definition has_role (account role : Z) : M bool :=
  r <- load (fun s => roles_at s account) ;;
  ret (bool_decide (Z.land r role <> 0)).

(** *** Evidence registration *)

Definition initial_registration_reason : string := "Initial registration".

Definition register_evidence
    (file_hash : Z) (ipfs_cid description case_id : string) : M Z :=
  decode_String 100 ipfs_cid ;;
  decode_String 500 description ;;
  decode_String 50 case_id ;;
  _only_role ROLE_POLICE ;;
  _validate_hash file_hash ;;
  _validate_string description ;;
  _validate_case_id case_id ;;
  assert_ (bool_decide (len ipfs_cid > 0)) Empty_IPFS_CID ;;
  dup <- load (fun s => registered_at s file_hash) ;;
  assert_ (negb dup) Evidence_already_registered ;;
  c <- load evidence_counter ;;
  c' <- checked_add c 1 ;;
  store (set_evidence_counter c') ;;
  evidence_id <- load evidence_counter ;;
  store (set_evidence evidence_id
           (mkEvidence evidence_id file_hash ipfs_cid description case_id
                       (msg_sender tx) (msg_sender tx) (block_timestamp tx)
                       Status_Collected true)) ;;
  store (set_registered file_hash true) ;;
  custody_history_append evidence_id
    (mkCustodyEvent empty_address (msg_sender tx) (block_timestamp tx)
                    initial_registration_reason) ;;
  log (EvidenceRegistered evidence_id file_hash ipfs_cid case_id
                          (msg_sender tx) (block_timestamp tx)) ;;
  ret evidence_id.

(** *** Custody management *)

Definition transfer_custody
    (evidence_id new_custodian : Z) (reason : string) : M unit :=
  decode_String 200 reason ;;
  _evidence_exists evidence_id ;;
  _only_custodian evidence_id ;;
  _validate_address new_custodian ;;
  assert_ (bool_decide (len reason > 0)) Empty_reason ;;
  r <- load (fun s => roles_at s new_custodian) ;;
  assert_ (bool_decide (r <> 0)) New_custodian_has_no_role ;;
  assert_ (bool_decide (new_custodian <> msg_sender tx)) Cannot_transfer_to_self ;;
  old_custodian <- load (fun s => current_custodian (evidence_at s evidence_id)) ;;
  custody_history_append evidence_id
    (mkCustodyEvent old_custodian new_custodian (block_timestamp tx) reason) ;;
  e <- load (fun s => evidence_at s evidence_id) ;;
  store (set_evidence evidence_id (with_custodian new_custodian e)) ;;
  log (CustodyTransferred evidence_id old_custodian new_custodian reason
                          (block_timestamp tx)).

Definition get_custody_history (evidence_id : Z) : M (list CustodyEvent) :=
  _evidence_exists evidence_id ;;
  load (fun s => history_at s evidence_id).

Definition get_current_custodian (evidence_id : Z) : M Z :=
  _evidence_exists evidence_id ;;
  load (fun s => current_custodian (evidence_at s evidence_id)).

(** *** Status management *)

Definition set_status (evidence_id new_status : Z) : M unit :=
  _evidence_exists evidence_id ;;
  _only_role (Z.lor ROLE_LAB ROLE_JUDGE) ;;
  old_status <- load (fun s => status (evidence_at s evidence_id)) ;;
  assert_ (bool_decide (new_status <> old_status)) Status_unchanged ;;
  (if bool_decide (old_status = Status_Collected) then
     assert_ (bool_decide (new_status = Status_InAnalysis)
              || bool_decide (new_status = Status_Invalidated))
             Invalid_transition_from_Collected
   else if bool_decide (old_status = Status_InAnalysis) then
     assert_ (bool_decide (new_status = Status_Archived)
              || bool_decide (new_status = Status_Invalidated))
             Invalid_transition_from_InAnalysis
   else if bool_decide (old_status = Status_Archived) then
     raise Cannot_transition_from_Archived
   else if bool_decide (old_status = Status_Invalidated) then
     raise Cannot_transition_from_Invalidated
   else ret tt) ;;
  e <- load (fun s => evidence_at s evidence_id) ;;
  store (set_evidence evidence_id (with_status new_status e)) ;;
  log (StatusChanged evidence_id old_status new_status (msg_sender tx)
                     (block_timestamp tx)).

(** *** Multiple files per evidence *)

Definition add_file_to_evidence
    (evidence_id file_hash : Z) (ipfs_cid file_type : string) : M unit :=
  decode_String 100 ipfs_cid ;;
  decode_String 50 file_type ;;
  _evidence_exists evidence_id ;;
  _only_role ROLE_LAB ;;
  _validate_hash file_hash ;;
  assert_ (bool_decide (len ipfs_cid > 0)) Empty_IPFS_CID ;;
  assert_ (bool_decide (len file_type > 0)) Empty_file_type ;;
  evidence_files_append evidence_id
    (mkEvidenceFile file_hash ipfs_cid file_type (msg_sender tx)
                    (block_timestamp tx)) ;;
  log (EvidenceFileAdded evidence_id file_hash ipfs_cid file_type
                         (msg_sender tx) (block_timestamp tx)).

Definition get_evidence_files (evidence_id : Z) : M (list EvidenceFile) :=
  _evidence_exists evidence_id ;;
  load (fun s => files_at s evidence_id).

(** *** Queries *)

Definition get_evidence (evidence_id : Z) : M Evidence :=
  _evidence_exists evidence_id ;;
  load (fun s => evidence_at s evidence_id).

Definition get_evidence_count : M Z := load evidence_counter.

Definition verify_integrity (evidence_id file_hash_ : Z) : M bool :=
  _evidence_exists evidence_id ;;
  e <- load (fun s => evidence_at s evidence_id) ;;
  ret (bool_decide (file_hash e = file_hash_)).

End Body.

(** *** Constructor *)

Definition init (deployer : Z) : State :=
  mkState deployer 0 ∅ ∅ ∅
          {[ deployer :=
               Z.lor (Z.lor (Z.lor ROLE_ADMIN ROLE_POLICE) ROLE_LAB) ROLE_JUDGE ]}
          ∅ [].

End DigitalEvidence.

Import DigitalEvidence.

(** ** Transactions *)

(** An external call: the body runs, and a revert restores the storage
    the call started from. *)
Definition call {A} (m : M A) (s : State) : Result A * State :=
  match m s with
  | (Success a, s') => (Success a, s')
  | (Reverted r, _) => (Reverted r, s)
  end.

(** The state-changing entry points. *)
Inductive Call :=
| Call_grant_role (account role : Z)
| Call_revoke_role (account role : Z)
| Call_register_evidence (file_hash : Z) (ipfs_cid description case_id : string)
| Call_transfer_custody (evidence_id new_custodian : Z) (reason : string)
| Call_set_status (evidence_id new_status : Z)
| Call_add_file_to_evidence (evidence_id file_hash : Z)
                            (ipfs_cid file_type : string).

(** What a call hands back: nothing, or the id of a registration. *)
Definition dispatch (tx : Env) (c : Call) : M (option Z) :=
  match c with
  | Call_grant_role a r => grant_role tx a r ;; ret None
  | Call_revoke_role a r => revoke_role tx a r ;; ret None
  | Call_register_evidence h cid d cas =>
      i <- register_evidence tx h cid d cas ;; ret (Some i)
  | Call_transfer_custody i n r => transfer_custody tx i n r ;; ret None
  | Call_set_status i st => set_status tx i st ;; ret None
  | Call_add_file_to_evidence i h cid ft =>
      add_file_to_evidence tx i h cid ft ;; ret None
  end.

Definition transact (tx : Env) (c : Call) (s : State)
  : Result (option Z) * State :=
  call (dispatch tx c) s.

Definition step (s : State) (txc : Env * Call) : State :=
  (transact txc.1 txc.2 s).2.

Definition run (s : State) (trace : list (Env * Call)) : State :=
  foldl step s trace.

(** The states the ledger can be in: those a deployment followed by any
    sequence of calls leads to. *)
Inductive reachable : State -> Prop :=
| reachable_init deployer : reachable (init deployer)
| reachable_step s tx c : reachable s -> reachable (step s (tx, c)).

(** ** The design document's vocabulary *)

Definition holds_role (s : State) (a role : Z) : bool :=
  bool_decide (Z.land (roles_at s a) role <> 0).

Definition evidence_exists (s : State) (i : Z) : bool :=
  exists_ (evidence_at s i).

(** The transition table of the status machine. *)
Definition allowed (from to : Z) : bool :=
  (bool_decide (from = Status_Collected)
   && (bool_decide (to = Status_InAnalysis)
       || bool_decide (to = Status_Invalidated)))
  || (bool_decide (from = Status_InAnalysis)
      && (bool_decide (to = Status_Archived)
          || bool_decide (to = Status_Invalidated))).

Definition is_status (st : Z) : Prop :=
  st = Status_Collected \/ st = Status_InAnalysis \/
  st = Status_Archived \/ st = Status_Invalidated.

Definition terminal (st : Z) : Prop :=
  st = Status_Archived \/ st = Status_Invalidated.

Definition is_role (role : Z) : Prop :=
  role = ROLE_ADMIN \/ role = ROLE_POLICE \/ role = ROLE_LAB \/
  role = ROLE_JUDGE.

(** The string arguments of a call are within the bounds of their
    parameter types. *)
Definition args_fit (c : Call) : bool :=
  match c with
  | Call_register_evidence _ cid d cas =>
      bool_decide (len cid <= 100) && bool_decide (len d <= 500)
      && bool_decide (len cas <= 50)
  | Call_transfer_custody _ _ why => bool_decide (len why <= 200)
  | Call_add_file_to_evidence _ _ cid ft =>
      bool_decide (len cid <= 100) && bool_decide (len ft <= 50)
  | _ => true
  end.

(** A custody chain handed on from [prev] and ending with holder [c]:
    every event starts from the holder the previous one ended with. *)
Fixpoint custody_chain (prev : Z) (h : list CustodyEvent) (c : Z) : Prop :=
  match h with
  | [] => prev = c
  | ev :: t => from_address ev = prev /\ custody_chain (to_address ev) t c
  end.

(** The invariant of the ledger. *)
Record ledger_inv (s : State) : Prop := mk_ledger_inv {
  inv_counter : 0 <= evidence_counter s <= MAX_UINT256;
  inv_evidence : forall i,
    evidence_exists s i = true ->
    1 <= i <= evidence_counter s /\
    id (evidence_at s i) = i /\
    is_status (status (evidence_at s i)) /\
    history_at s i <> [] /\
    custody_chain empty_address (history_at s i)
                  (current_custodian (evidence_at s i));
  inv_stored : forall i e, evidences s !! i = Some e -> exists_ e = true;
  inv_history_dom : forall i,
    history_at s i <> [] -> 1 <= i <= evidence_counter s;
  inv_history_cap : forall i,
    Z.of_nat (length (history_at s i)) <= CUSTODY_CAPACITY;
  inv_files_cap : forall i,
    Z.of_nat (length (files_at s i)) <= FILES_CAPACITY
}.

(** ** Guards and effects

    Each entry point is a list of guards, checked in order, followed by
    its writes. [first_failure] picks the revert of the first guard
    that does not hold. *)

Fixpoint first_failure (checks : list (bool * Revert)) : option Revert :=
  match checks with
  | [] => None
  | (b, r) :: rest => if b then first_failure rest else Some r
  end.

Definition guarded {A} (checks : list (bool * Revert)) (a : A)
    (after s : State) : Result A * State :=
  match first_failure checks with
  | Some r => (Reverted r, s)
  | None => (Success a, after)
  end.

Section Guards.

Variable tx : Env.
Variable s : State.

Definition role_checks (account role : Z) : list (bool * Revert) :=
  [ (bool_decide (msg_sender tx = admin s), Only_admin);
    (bool_decide (account <> empty_address), Invalid_address);
    (role_in_list role, Invalid_role) ].

Definition grant_role_effect (account role : Z) : State :=
  add_log (RoleGranted account role (msg_sender tx))
    (set_roles account (Z.lor (roles_at s account) role) s).

Definition revoke_role_effect (account role : Z) : State :=
  add_log (RoleRevoked account role (msg_sender tx))
    (set_roles account (Z.land (roles_at s account) (uint256_not role)) s).

Definition register_checks (h : Z) (cid d cas : string)
  : list (bool * Revert) :=
  [ (bool_decide (len cid <= 100), Argument_out_of_bounds);
    (bool_decide (len d <= 500), Argument_out_of_bounds);
    (bool_decide (len cas <= 50), Argument_out_of_bounds);
    (holds_role s (msg_sender tx) ROLE_POLICE, Unauthorized_role);
    (bool_decide (h <> empty_bytes32), Invalid_hash);
    (bool_decide (len d > 0), Empty_string);
    (bool_decide (len cas > 0), Empty_case_ID);
    (bool_decide (len cid > 0), Empty_IPFS_CID);
    (negb (registered_at s h), Evidence_already_registered);
    (bool_decide (evidence_counter s + 1 <= MAX_UINT256), Arithmetic_overflow);
    (bool_decide
       (Z.of_nat (length (history_at s (evidence_counter s + 1)))
        < CUSTODY_CAPACITY), DynArray_full) ].

Definition register_effect (h : Z) (cid d cas : string) : State :=
  let i := evidence_counter s + 1 in
  add_log (EvidenceRegistered i h cid cas (msg_sender tx) (block_timestamp tx))
    (set_history i
       (history_at s i ++
        [mkCustodyEvent empty_address (msg_sender tx) (block_timestamp tx)
                        initial_registration_reason])
       (set_registered h true
          (set_evidence i
             (mkEvidence i h cid d cas (msg_sender tx) (msg_sender tx)
                         (block_timestamp tx) Status_Collected true)
             (set_evidence_counter i s)))).

Definition transfer_checks (i n : Z) (why : string) : list (bool * Revert) :=
  [ (bool_decide (len why <= 200), Argument_out_of_bounds);
    (evidence_exists s i, Evidence_does_not_exist);
    (bool_decide (current_custodian (evidence_at s i) = msg_sender tx),
     Not_custodian);
    (bool_decide (n <> empty_address), Invalid_address);
    (bool_decide (len why > 0), Empty_reason);
    (bool_decide (roles_at s n <> 0), New_custodian_has_no_role);
    (bool_decide (n <> msg_sender tx), Cannot_transfer_to_self);
    (bool_decide (Z.of_nat (length (history_at s i)) < CUSTODY_CAPACITY),
     DynArray_full) ].

Definition transfer_effect (i n : Z) (why : string) : State :=
  let old := current_custodian (evidence_at s i) in
  add_log (CustodyTransferred i old n why (block_timestamp tx))
    (set_evidence i (with_custodian n (evidence_at s i))
       (set_history i
          (history_at s i ++ [mkCustodyEvent old n (block_timestamp tx) why])
          s)).

Definition status_checks (i st : Z) : list (bool * Revert) :=
  let old := status (evidence_at s i) in
  [ (evidence_exists s i, Evidence_does_not_exist);
    (holds_role s (msg_sender tx) (Z.lor ROLE_LAB ROLE_JUDGE),
     Unauthorized_role);
    (bool_decide (st <> old), Status_unchanged);
    (negb (bool_decide (old = Status_Collected))
     || bool_decide (st = Status_InAnalysis)
     || bool_decide (st = Status_Invalidated),
     Invalid_transition_from_Collected);
    (negb (bool_decide (old = Status_InAnalysis))
     || bool_decide (st = Status_Archived)
     || bool_decide (st = Status_Invalidated),
     Invalid_transition_from_InAnalysis);
    (negb (bool_decide (old = Status_Archived)),
     Cannot_transition_from_Archived);
    (negb (bool_decide (old = Status_Invalidated)),
     Cannot_transition_from_Invalidated) ].

Definition status_effect (i st : Z) : State :=
  add_log (StatusChanged i (status (evidence_at s i)) st (msg_sender tx)
                         (block_timestamp tx))
    (set_evidence i (with_status st (evidence_at s i)) s).

Definition add_file_checks (i h : Z) (cid ft : string)
  : list (bool * Revert) :=
  [ (bool_decide (len cid <= 100), Argument_out_of_bounds);
    (bool_decide (len ft <= 50), Argument_out_of_bounds);
    (evidence_exists s i, Evidence_does_not_exist);
    (holds_role s (msg_sender tx) ROLE_LAB, Unauthorized_role);
    (bool_decide (h <> empty_bytes32), Invalid_hash);
    (bool_decide (len cid > 0), Empty_IPFS_CID);
    (bool_decide (len ft > 0), Empty_file_type);
    (bool_decide (Z.of_nat (length (files_at s i)) < FILES_CAPACITY),
     DynArray_full) ].

Definition add_file_effect (i h : Z) (cid ft : string) : State :=
  add_log (EvidenceFileAdded i h cid ft (msg_sender tx) (block_timestamp tx))
    (set_files i
       (files_at s i ++
        [mkEvidenceFile h cid ft (msg_sender tx) (block_timestamp tx)])
       s).

(** The guards and the effect of a call. *)
Definition checks_of (c : Call) : list (bool * Revert) :=
  match c with
  | Call_grant_role a r => role_checks a r
  | Call_revoke_role a r => role_checks a r
  | Call_register_evidence h cid d cas => register_checks h cid d cas
  | Call_transfer_custody i n why => transfer_checks i n why
  | Call_set_status i st => status_checks i st
  | Call_add_file_to_evidence i h cid ft => add_file_checks i h cid ft
  end.

Definition effect_of (c : Call) : State :=
  match c with
  | Call_grant_role a r => grant_role_effect a r
  | Call_revoke_role a r => revoke_role_effect a r
  | Call_register_evidence h cid d cas => register_effect h cid d cas
  | Call_transfer_custody i n why => transfer_effect i n why
  | Call_set_status i st => status_effect i st
  | Call_add_file_to_evidence i h cid ft => add_file_effect i h cid ft
  end.

Definition returned_by (c : Call) : option Z :=
  match c with
  | Call_register_evidence _ _ _ _ => Some (evidence_counter s + 1)
  | _ => None
  end.

End Guards.

(** ** Outcomes, records and paths *)

Definition succeeds {A} (m : M A) (s : State) : Prop :=
  exists a s', call m s = (Success a, s').

Definition fails_with {A} (m : M A) (s : State) (k : ErrorKind) : Prop :=
  exists r, call m s = (Reverted r, s) /\ error_kind r = k.

(** The part of a record that registration fixes. *)
Definition same_identity (e e' : Evidence) : Prop :=
  id e' = id e /\ file_hash e' = file_hash e /\ ipfs_cid e' = ipfs_cid e /\
  description e' = description e /\ case_id e' = case_id e /\
  creator e' = creator e /\ created_at e' = created_at e /\
  exists_ e' = exists_ e.

(** The statuses of an evidence id seen before a trace and after each
    of its calls. *)
Fixpoint observed_statuses (s : State) (trace : list (Env * Call)) (i : Z)
  : list Z :=
  status (evidence_at s i) ::
  match trace with
  | [] => []
  | x :: rest => observed_statuses (step s x) rest i
  end.

(** A path through the transition table, allowing for calls that leave
    the status as it is. *)
Fixpoint valid_path (l : list Z) : Prop :=
  match l with
  | a :: (b :: _) as rest => (a = b \/ allowed a b = true) /\ valid_path rest
  | _ => True
  end.

(** The ledger with the status of one record replaced. *)
Definition restatus (st i : Z) (s : State) : State :=
  set_evidence i (with_status st (evidence_at s i)) s.

(** ** Sample ledgers *)

(** A ledger deployed by principal 1, who grants LAB to principal 2 and
    registers one piece of evidence. *)
Definition sample_trace : list (Env * Call) :=
  [ (mkEnv 1 100, Call_grant_role 2 ROLE_LAB);
    (mkEnv 1 101, Call_register_evidence 7 "QmCID" "desc" "CASE-1") ].

Definition sample_state : State := run (init 1) sample_trace.

(** A ledger deployed by principal 1, who then grants ADMIN to
    principal 2. *)
Definition second_admin_state : State :=
  step (init 1) (mkEnv 1 100, Call_grant_role 2 ROLE_ADMIN).

(** The sample ledger after evidence 1 has been analysed and archived
    by principal 2. *)
Definition archived_state : State :=
  run sample_state
    [ (mkEnv 2 102, Call_set_status 1 Status_InAnalysis);
      (mkEnv 2 103, Call_set_status 1 Status_Archived) ].

(** Principal 1 and principal 2 hand evidence 1 back and forth. *)
Fixpoint hand_over (k : nat) (holder other ts : Z) : list (Env * Call) :=
  match k with
  | O => []
  | S k' =>
      (mkEnv holder ts, Call_transfer_custody 1 other "handoff")
        :: hand_over k' other holder (ts + 1)
  end.

(** The sample ledger after 999 transfers of evidence 1. *)
Definition full_history_state : State :=
  run sample_state (hand_over 999 1 2 200).

(** The ledger with a full history for evidence 1, archived by
    principal 1. *)
Definition full_archived_state : State :=
  run full_history_state
    [ (mkEnv 1 6000, Call_set_status 1 Status_InAnalysis);
      (mkEnv 1 6001, Call_set_status 1 Status_Archived) ].

(** A storage no call sequence leads to: the history of the next id is
    already full. Registration then stops after it has written. *)
Definition crowded_state : State :=
  mkState 1 0 ∅ {[ 1 := replicate 1000 (mkCustodyEvent 0 1 0 "x") ]} ∅
          {[ 1 := 15 ]} ∅ [].

(** ** The event log *)

(** The event a call logs when it goes through. *)
Definition event_of (tx : Env) (s : State) (c : Call) : Event :=
  match c with
  | Call_grant_role a r => RoleGranted a r (msg_sender tx)
  | Call_revoke_role a r => RoleRevoked a r (msg_sender tx)
  | Call_register_evidence h cid d cas =>
      EvidenceRegistered (evidence_counter s + 1) h cid cas (msg_sender tx)
                         (block_timestamp tx)
  | Call_transfer_custody i n why =>
      CustodyTransferred i (current_custodian (evidence_at s i)) n why
                         (block_timestamp tx)
  | Call_set_status i st =>
      StatusChanged i (status (evidence_at s i)) st (msg_sender tx)
                    (block_timestamp tx)
  | Call_add_file_to_evidence i h cid ft =>
      EvidenceFileAdded i h cid ft (msg_sender tx) (block_timestamp tx)
  end.

(** What an observer of the log learns about evidence [i]: the custody
    event, the attached file or the new status an event carries. *)
Definition custody_of_event (i : Z) (ev : Event) : option CustodyEvent :=
  match ev with
  | EvidenceRegistered j _ _ _ who ts =>
      if decide (j = i)
      then Some (mkCustodyEvent empty_address who ts
                                initial_registration_reason)
      else None
  | CustodyTransferred j from_ to_ why ts =>
      if decide (j = i) then Some (mkCustodyEvent from_ to_ ts why) else None
  | _ => None
  end.

Definition file_of_event (i : Z) (ev : Event) : option EvidenceFile :=
  match ev with
  | EvidenceFileAdded j h cid ft who ts =>
      if decide (j = i) then Some (mkEvidenceFile h cid ft who ts) else None
  | _ => None
  end.

Definition status_of_event (i : Z) (ev : Event) : option Z :=
  match ev with
  | StatusChanged j _ new_status _ _ =>
      if decide (j = i) then Some new_status else None
  | _ => None
  end.

Definition registered_id (ev : Event) : option Z :=
  match ev with
  | EvidenceRegistered j _ _ _ _ _ => Some j
  | _ => None
  end.

(** How far along the lifecycle a status is. *)
Definition status_rank (st : Z) : nat :=
  if bool_decide (st = Status_Collected) then 0
  else if bool_decide (st = Status_InAnalysis) then 1
  else 2.

(** All four role bits. *)
Definition ALL_ROLES : Z :=
  Z.lor (Z.lor (Z.lor ROLE_ADMIN ROLE_POLICE) ROLE_LAB) ROLE_JUDGE.

(** ** The backend: service and controller

    The JavaScript callers of the contract ([blockchainService.js],
    [evidenceController.js], [hashUtils.js]). A JavaScript number that
    holds an integer is a [Z]; [NaN] is [None]; the conversion
    [Number(x)] of a contract integer is a parameter, exact on the safe
    integers. A promise that rejects, or a handler that passes an error
    on, is a failure value. Transaction hashes and block numbers are
    not modelled. *)

Definition MAX_SAFE_INTEGER : Z := 2 ^ 53 - 1.

(** [getStatusText] of the controller. *)
Definition getStatusText (status : Z) : string :=
  if bool_decide (status = 0) then "Collected"
  else if bool_decide (status = 1) then "In Analysis"
  else if bool_decide (status = 2) then "Archived"
  else if bool_decide (status = 3) then "Invalidated"
  else "Unknown".

(** The object [getEvidence] of the service returns. *)
Record JsEvidence := mkJsEvidence {
  js_id : Z;
  js_fileHash : Z;
  js_ipfsCid : string;
  js_description : string;
  js_caseId : string;
  js_creator : Z;
  js_currentCustodian : Z;
  js_createdAt : Z;
  js_status : Z;
  js_exists : bool
}.

(** Why a service method throws. *)
Inductive ServiceError :=
| Not_initialized
| Invalid_file_hash_format
| Unencodable_argument
| Unsafe_integer
| Call_reverted (r : Revert).

Section Service.

Variable Number : Z -> Z.

(** The contract library refuses to encode a number outside the safe
    integers. *)
Definition encodable (n : Z) : bool :=
  bool_decide (0 <= n <= MAX_SAFE_INTEGER).

(** [blockchainService.getEvidence]. *)
Definition getEvidence (ready : bool) (evidenceId : Z) (s : State)
  : ServiceError + JsEvidence :=
  if negb ready then inl Not_initialized
  else if negb (encodable evidenceId) then inl Unsafe_integer
  else match call (get_evidence evidenceId) s with
       | (Success e, _) =>
           inr (mkJsEvidence (Number (id e)) (file_hash e) (ipfs_cid e)
                             (description e) (case_id e) (creator e)
                             (current_custodian e) (Number (created_at e))
                             (Number (status e)) (exists_ e))
       | (Reverted r, _) => inl (Call_reverted r)
       end.

(** [blockchainService.getEvidenceCount]. *)
Definition getEvidenceCount (ready : bool) (s : State) : ServiceError + Z :=
  if negb ready then inl Not_initialized
  else inr (Number (evidence_counter s)).

(** One round of the loop of [getAllEvidences]: the calls mined since
    the previous read, then the read of evidence [i], kept if it came
    back and exists. *)
Definition read_next (ready : bool) (between : Z -> list (Env * Call))
    (st : State * list JsEvidence) (i : Z) : State * list JsEvidence :=
  let s := run st.1 (between i) in
  match getEvidence ready i s with
  | inr evidence => if js_exists evidence then (s, st.2 ++ [evidence])
                    else (s, st.2)
  | inl _ => (s, st.2)
  end.

(** [blockchainService.getAllEvidences]: the count is read in state
    [s]; [between i] are the calls other clients get mined before the
    read of evidence [i]. *)
Definition getAllEvidences (ready : bool) (between : Z -> list (Env * Call))
    (s : State) : ServiceError + list JsEvidence :=
  if negb ready then inl Not_initialized
  else match getEvidenceCount ready s with
       | inl e => inl e
       | inr count =>
           inr (foldl (read_next ready between) (s, []) (seqZ 1 count)).2
       end.

(** [blockchainService.setStatus], sent from the backend's wallet. *)
Definition setStatus (ready : bool) (tx : Env) (evidenceId newStatus : Z)
    (s : State) : (ServiceError + unit) * State :=
  if negb ready then (inl Not_initialized, s)
  else if negb (encodable evidenceId && encodable newStatus)
       then (inl Unsafe_integer, s)
  else match call (set_status tx evidenceId newStatus) s with
       | (Success _, s') => (inr tt, s')
       | (Reverted r, s') => (inl (Call_reverted r), s')
       end.

End Service.

(** What the controller answers. *)
Inductive Response :=
| Bad_request (error : string)
| Passed_to_error_handler (e : ServiceError)
| Status_changed (evidenceId newStatus : Z) (statusText : string).

Definition invalid_status_message : string :=
  "Invalid status (0=Collected, 1=InAnalysis, 2=Archived, 3=Invalidated)".

(** [evidenceController.changeStatus]; [evidenceId] and [statusNum]
    are what [parseInt] made of the request. *)
Definition changeStatus (ready : bool) (tx : Env)
    (evidenceId statusNum : option Z) (s : State) : Response * State :=
  match evidenceId with
  | None => (Bad_request "Invalid evidence ID", s)
  | Some i =>
      if bool_decide (i < 1) then (Bad_request "Invalid evidence ID", s)
      else
        match statusNum with
        | None => (Bad_request invalid_status_message, s)
        | Some n =>
            if bool_decide (n < 0) || bool_decide (n > 3)
            then (Bad_request invalid_status_message, s)
            else
              match setStatus ready tx i n s with
              | (inr _, s') => (Status_changed i n (getStatusText n), s')
              | (inl e, s') => (Passed_to_error_handler e, s')
              end
        end
  end.

(** Requests to the status endpoint, one after the other. *)
Definition status_requests (ready : bool) (s : State)
    (requests : list (Env * option Z * option Z)) : State :=
  foldl (fun st req => (changeStatus ready req.1.1 req.1.2 req.2 st).2)
        s requests.

(** *** Hashing ([hashUtils.js]) *)

Definition char_toLowerCase (c : Ascii.ascii) : Ascii.ascii :=
  let n := Ascii.nat_of_ascii c in
  if (65 <=? n)%nat && (n <=? 90)%nat then Ascii.ascii_of_nat (n + 32) else c.

(** [String.prototype.toLowerCase], on ASCII text. *)
Fixpoint toLowerCase (s : string) : string :=
  match s with
  | EmptyString => EmptyString
  | String c rest => String (char_toLowerCase c) (toLowerCase rest)
  end.

Definition startsWith (s p : string) : bool := String.prefix p s.

Definition lower_hex_digit (c : Ascii.ascii) : bool :=
  let n := Ascii.nat_of_ascii c in
  ((48 <=? n) && (n <=? 57) || (97 <=? n) && (n <=? 102))%nat.

Fixpoint all_chars (p : Ascii.ascii -> bool) (s : string) : bool :=
  match s with
  | EmptyString => true
  | String c rest => p c && all_chars p rest
  end.

Section Hashing.

Variable Buffer : Type.

(** [crypto.createHash('sha256').update(buffer).digest('hex')]. *)
Variable sha256_hex : Buffer -> string.

Definition computeHash (buffer : Buffer) : string :=
  String.append "0x" (sha256_hex buffer).

Definition verifyHash (buffer : Buffer) (expectedHash : string) : bool :=
  let computedHash := computeHash buffer in
  let normalizedExpected :=
    if startsWith expectedHash "0x" then expectedHash
    else String.append "0x" expectedHash in
  bool_decide (toLowerCase computedHash = toLowerCase normalizedExpected).

(** The format check of [blockchainService.registerEvidence]. *)
Definition hash_format_ok (fileHash : string) : bool :=
  negb (negb (startsWith fileHash "0x")
        || negb (bool_decide (String.length fileHash = 66%nat))).

End Hashing.

(** *** Registration through the service *)

Section Registration.

Variable Number : Z -> Z.

(** The contract library's reading of a hex string as a [bytes32];
    [None] where it refuses the string. *)
Variable bytes32_of_hex : string -> option Z.

(** The id of the first [EvidenceRegistered] event among the logs of a
    receipt. *)
Definition registered_in (receipt_logs : list Event) : option Z :=
  head (omap registered_id receipt_logs).

(** [blockchainService.registerEvidence]: the format check, the
    transaction, and the id read from the receipt's
    [EvidenceRegistered] event or, without one, from the counter. *)
Definition registerEvidence (ready : bool) (tx : Env)
    (fileHash ipfsCid description caseId : string) (s : State)
  : (ServiceError + Z) * State :=
  if negb ready then (inl Not_initialized, s)
  else if negb (startsWith fileHash "0x")
          || negb (bool_decide (String.length fileHash = 66%nat))
       then (inl Invalid_file_hash_format, s)
  else match bytes32_of_hex fileHash with
       | None => (inl Unencodable_argument, s)
       | Some h =>
           match call (register_evidence tx h ipfsCid description caseId) s with
           | (Reverted r, s') => (inl (Call_reverted r), s')
           | (Success _, s') =>
               let receipt_logs := drop (length (logs s)) (logs s') in
               match registered_in receipt_logs with
               | Some i => (inr (Number i), s')
               | None => (inr (Number (evidence_counter s')), s')
               end
           end
       end.

End Registration.

(** * Properties *)

(** ** Reading back what was written *)

Lemma evidence_at_set_evidence i e s j :
  evidence_at (set_evidence i e s) j =
  if decide (i = j) then e else evidence_at s j.
Proof.
  unfold evidence_at, set_evidence; simpl.
  rewrite lookup_insert. by destruct (decide (i = j)).
Qed.

Lemma history_at_set_history i h s j :
  history_at (set_history i h s) j =
  if decide (i = j) then h else history_at s j.
Proof.
  unfold history_at, set_history; simpl.
  rewrite lookup_insert. by destruct (decide (i = j)).
Qed.

Lemma files_at_set_files i l s j :
  files_at (set_files i l s) j =
  if decide (i = j) then l else files_at s j.
Proof.
  unfold files_at, set_files; simpl.
  rewrite lookup_insert. by destruct (decide (i = j)).
Qed.

Lemma roles_at_set_roles a r s b :
  roles_at (set_roles a r s) b =
  if decide (a = b) then r else roles_at s b.
Proof.
  unfold roles_at, set_roles; simpl.
  rewrite lookup_insert. by destruct (decide (a = b)).
Qed.

Lemma registered_at_set_registered h v s k :
  registered_at (set_registered h v s) k =
  if decide (h = k) then v else registered_at s k.
Proof.
  unfold registered_at, set_registered; simpl.
  rewrite lookup_insert. by destruct (decide (h = k)).
Qed.

(** ** The entry points in guard-and-effect form *)

Ltac unfold_body :=
  unfold call, guarded, grant_role, revoke_role, register_evidence,
    transfer_custody, set_status, add_file_to_evidence,
    custody_history_append, evidence_files_append, checked_add,
    _only_admin, _only_role, _evidence_exists, _only_custodian,
    _validate_address, _validate_string, _validate_case_id, _validate_hash,
    decode_String, log, assert_, bind, ret, load, store, raise,
    holds_role, evidence_exists.

Ltac split_guards :=
  repeat match goal with
         | |- context [bool_decide ?P] =>
             destruct (bool_decide P) eqn:?; simpl
         | |- context [role_in_list ?r] =>
             destruct (role_in_list r) eqn:?; simpl
         | |- context [exists_ ?e] => destruct (exists_ e) eqn:?; simpl
         | |- context [registered_at ?s ?h] =>
             destruct (registered_at s h) eqn:?; simpl
         end.

(** The bodies, as they run: a guard that fails stops the body with the
    storage still as the call found it. *)

Ltac reflect_guards :=
  repeat match goal with
         | H : bool_decide _ = true |- _ => apply bool_decide_eq_true in H
         | H : bool_decide _ = false |- _ => apply bool_decide_eq_false in H
         | H : negb _ = true |- _ => apply negb_true_iff in H
         | H : negb _ = false |- _ => apply negb_false_iff in H
         | H : _ && _ = true |- _ => apply andb_true_iff in H; destruct H
         | H : _ || _ = false |- _ => apply orb_false_iff in H; destruct H
         end.

Lemma grant_role_body tx a r s :
  grant_role tx a r s =
  guarded (role_checks tx s a r) tt (grant_role_effect tx s a r) s.
Proof. unfold role_checks; unfold_body; simpl. by split_guards. Qed.

Lemma revoke_role_body tx a r s :
  revoke_role tx a r s =
  guarded (role_checks tx s a r) tt (revoke_role_effect tx s a r) s.
Proof. unfold role_checks; unfold_body; simpl. by split_guards. Qed.

Lemma transfer_custody_body tx i n why s :
  transfer_custody tx i n why s =
  guarded (transfer_checks tx s i n why) tt (transfer_effect tx s i n why) s.
Proof. unfold transfer_checks; unfold_body; simpl. by split_guards. Qed.

Lemma set_status_body tx i st s :
  set_status tx i st s =
  guarded (status_checks tx s i st) tt (status_effect tx s i st) s.
Proof.
  unfold status_checks; unfold_body; simpl.
  split_guards; try done; reflect_guards;
    unfold Status_Collected, Status_InAnalysis, Status_Archived,
      Status_Invalidated in *; lia.
Qed.

Lemma add_file_to_evidence_body tx i h cid ft s :
  add_file_to_evidence tx i h cid ft s =
  guarded (add_file_checks tx s i h cid ft) tt
          (add_file_effect tx s i h cid ft) s.
Proof. unfold add_file_checks; unfold_body; simpl. by split_guards. Qed.

(** Registration writes the counter, the record and the digest before
    it appends to the history, so its body stops with the storage
    untouched only while the history of the next id has room; the
    external call is rolled back in either case. *)
Lemma register_evidence_body tx h cid d cas s :
  Z.of_nat (length (history_at s (evidence_counter s + 1))) < CUSTODY_CAPACITY ->
  register_evidence tx h cid d cas s =
  guarded (register_checks tx s h cid d cas) (evidence_counter s + 1)
          (register_effect tx s h cid d cas) s.
Proof.
  intros Hroom. unfold register_checks; unfold_body; simpl.
  split_guards; try done; reflect_guards; by exfalso; auto.
Qed.

Lemma register_evidence_call tx h cid d cas s :
  call (register_evidence tx h cid d cas) s =
  guarded (register_checks tx s h cid d cas) (evidence_counter s + 1)
          (register_effect tx s h cid d cas) s.
Proof.
  unfold register_checks; unfold_body; simpl.
  split_guards; try done; reflect_guards; by exfalso; auto.
Qed.

Lemma call_guarded {A} (m : M A) checks (a : A) after s :
  m s = guarded checks a after s -> call m s = guarded checks a after s.
Proof.
  intros E. unfold call. rewrite E. unfold guarded.
  by destruct (first_failure checks).
Qed.

Lemma call_then_ret {A B} (m : M A) (f : A -> B) checks (a : A) after s :
  call m s = guarded checks a after s ->
  call (x <- m ;; ret (f x)) s = guarded checks (f a) after s.
Proof.
  unfold call, bind, ret, guarded.
  destruct (m s) as [[x|r] s']; destruct (first_failure checks);
    intros E; by simplify_eq.
Qed.

(** Every transaction is its guards followed by its effect. *)
Lemma transact_guarded tx c s :
  transact tx c s =
  guarded (checks_of tx s c) (returned_by s c) (effect_of tx s c) s.
Proof.
  unfold transact; destruct c; simpl.
  - apply (call_then_ret _ (fun _ => None) _ tt), call_guarded,
      grant_role_body.
  - apply (call_then_ret _ (fun _ => None) _ tt), call_guarded,
      revoke_role_body.
  - apply (call_then_ret _ Some), register_evidence_call.
  - apply (call_then_ret _ (fun _ => None) _ tt), call_guarded,
      transfer_custody_body.
  - apply (call_then_ret _ (fun _ => None) _ tt), call_guarded,
      set_status_body.
  - apply (call_then_ret _ (fun _ => None) _ tt), call_guarded,
      add_file_to_evidence_body.
Qed.

Lemma step_guarded s tx c :
  step s (tx, c) =
  match first_failure (checks_of tx s c) with
  | Some _ => s
  | None => effect_of tx s c
  end.
Proof.
  unfold step; simpl. rewrite transact_guarded. unfold guarded.
  by destruct (first_failure _).
Qed.

(** ** Facts about guards *)

Lemma first_failure_None checks :
  first_failure checks = None <-> Forall (fun p => p.1 = true) checks.
Proof.
  induction checks as [|[b r] rest IH]; simpl.
  - split; [constructor | done].
  - destruct b; simpl.
    + rewrite IH. split; [by constructor | by inversion 1].
    + split; [done | by inversion 1].
Qed.

Lemma first_failure_Some checks r :
  first_failure checks = Some r -> (false, r) ∈ checks.
Proof.
  induction checks as [|[b r'] rest IH]; simpl; [done|].
  destruct b.
  - intros H. right. auto.
  - intros [= ->]. left.
Qed.

Lemma guarded_success {A} checks (a b : A) after s s' :
  guarded checks a after s = (Success b, s') ->
  first_failure checks = None /\ b = a /\ s' = after.
Proof.
  unfold guarded. destruct (first_failure checks); [done|].
  by intros [= <- <-].
Qed.

Lemma guarded_reverted {A} checks (a : A) after s r s' :
  guarded checks a after s = (@Reverted A r, s') ->
  first_failure checks = Some r /\ s' = s.
Proof.
  unfold guarded. destruct (first_failure checks); [|done].
  by intros [= <- <-].
Qed.

(** A call either fails with the storage untouched or applies its
    effect. *)
Lemma step_cases s tx c :
  (exists r, first_failure (checks_of tx s c) = Some r /\ step s (tx, c) = s) \/
  (first_failure (checks_of tx s c) = None /\ step s (tx, c) = effect_of tx s c).
Proof.
  rewrite step_guarded. destruct (first_failure _) as [r|]; eauto.
Qed.

Ltac unfold_state :=
  unfold grant_role_effect, revoke_role_effect, register_effect,
    transfer_effect, status_effect, add_file_effect,
    evidence_exists, holds_role,
    evidence_at, history_at, files_at, roles_at, registered_at,
    set_evidence_counter, set_evidence, set_history, set_files, set_roles,
    set_registered, add_log in *;
  cbn [admin evidence_counter evidences custody_history evidence_files
       roles registered_hashes logs] in *.

Ltac guards_true H :=
  apply first_failure_None in H; cbn [checks_of] in H;
  unfold role_checks, register_checks, transfer_checks, status_checks,
    add_file_checks in H;
  repeat match type of H with
         | Forall _ (_ :: _) =>
             let Hd := fresh "G" in
             apply Forall_cons in H; destruct H as [Hd H]; cbn [fst] in Hd
         | Forall _ [] => clear H
         end;
  reflect_guards.

(** ** The invariant holds in every reachable state *)

Lemma custody_chain_app prev h c ev :
  custody_chain prev h c ->
  from_address ev = c ->
  custody_chain prev (h ++ [ev]) (to_address ev).
Proof.
  revert prev. induction h as [|e t IH]; simpl; intros prev.
  - intros -> ->. done.
  - intros [-> Ht] Hc. split; [done|]. by apply IH.
Qed.

Lemma ledger_inv_init deployer : ledger_inv (init deployer).
Proof.
  split; unfold init; unfold_state; try done.
Qed.

Ltac at_key k i :=
  destruct (decide (k = i)) as [<-|?];
  [ rewrite ?lookup_insert_eq | rewrite ?lookup_insert_ne by done ];
  simpl.

Lemma ledger_inv_effect tx c s :
  ledger_inv s ->
  first_failure (checks_of tx s c) = None ->
  ledger_inv (effect_of tx s c).
Proof.
  intros [Hc He Hs Hd Hh Hf] G.
  destruct c; guards_true G; cbn [effect_of].
  - split; unfold_state; try done.
  - split; unfold_state; try done.
  - assert (Hfresh : history_at s (evidence_counter s + 1) = []).
    { destruct (history_at s (evidence_counter s + 1)) eqn:E; [done|].
      specialize (Hd (evidence_counter s + 1)). rewrite E in Hd.
      specialize (Hd ltac:(done)). lia. }
    split; unfold_state.
    + lia.
    + intros i. at_key (evidence_counter s + 1) i.
      * intros _. rewrite Hfresh. simpl.
        repeat split; try done; try lia. by left.
      * intros Hi. destruct (He i Hi) as (? & ? & ? & ? & ?).
        repeat split; try done; lia.
    + intros i e. at_key (evidence_counter s + 1) i.
      * by intros [= <-].
      * apply Hs.
    + intros i. at_key (evidence_counter s + 1) i.
      * intros _. lia.
      * intros Hi. specialize (Hd i Hi). lia.
    + intros i. at_key (evidence_counter s + 1) i.
      * rewrite length_app. simpl. lia.
      * apply Hh.
    + done.
  - split; unfold_state; try done.
    + intros i. at_key evidence_id i.
      * intros Hi. destruct (He _ Hi) as ([? ?] & ? & ? & ? & Hch).
        repeat split; try done.
        -- by destruct (default [] (custody_history s !! evidence_id)).
        -- eapply (custody_chain_app _ _ _
                     (mkCustodyEvent _ new_custodian _ _)); [exact Hch|done].
      * apply He.
    + intros i e. at_key evidence_id i.
      * intros [= <-]. simpl. done.
      * apply Hs.
    + intros i. at_key evidence_id i.
      * intros _. apply He. done.
      * apply Hd.
    + intros i. at_key evidence_id i.
      * rewrite length_app. simpl. lia.
      * apply Hh.
  - split; unfold_state; try done.
    + intros i. at_key evidence_id i.
      * intros Hi. destruct (He _ Hi) as ([? ?] & ? & Hst & ? & ?).
        repeat split; try done.
        unfold is_status in *.
        repeat match goal with
               | H : _ || _ = true |- _ => apply orb_true_iff in H
               | H : negb _ = true |- _ => apply negb_true_iff in H
               | H : bool_decide _ = true |- _ => apply bool_decide_eq_true in H
               | H : bool_decide _ = false |- _ =>
                   apply bool_decide_eq_false in H
               | H : _ \/ _ |- _ => destruct H
               end; auto; try lia.
      * apply He.
    + intros i e. at_key evidence_id i.
      * intros [= <-]. simpl. done.
      * apply Hs.
  - split; unfold_state; try done.
    intros i. at_key evidence_id i.
    + rewrite length_app. simpl. lia.
    + apply Hf.
Qed.

Lemma ledger_inv_step s tx c : ledger_inv s -> ledger_inv (step s (tx, c)).
Proof.
  intros Hinv. destruct (step_cases s tx c) as [(r & _ & ->)|[G ->]]; [done|].
  by apply ledger_inv_effect.
Qed.

Lemma reachable_inv s : reachable s -> ledger_inv s.
Proof.
  induction 1; [apply ledger_inv_init | by apply ledger_inv_step].
Qed.

Lemma reachable_run s trace : reachable s -> reachable (run s trace).
Proof.
  revert s. induction trace as [|[tx c] rest IH]; simpl; intros s Hs; [done|].
  apply IH. by constructor.
Qed.

(** ** Role registry *)

Lemma role_in_list_spec role : role_in_list role = true <-> is_role role.
Proof.
  unfold role_in_list, is_role. rewrite bool_decide_eq_true.
  rewrite !elem_of_cons, elem_of_nil. tauto.
Qed.

Lemma holds_role_union s a r1 r2 :
  holds_role s a (Z.lor r1 r2) = holds_role s a r1 || holds_role s a r2.
Proof.
  unfold holds_role. rewrite Z.land_lor_distr_r.
  apply eq_true_iff_eq.
  rewrite orb_true_iff, !bool_decide_eq_true, Z.lor_eq_0_iff. 
  destruct (decide (Z.land (roles_at s a) r1 = 0)),
           (decide (Z.land (roles_at s a) r2 = 0)); tauto.
Qed.

Lemma clear_role_bit mask role :
  is_role role -> Z.land (Z.land mask (uint256_not role)) role = 0.
Proof.
  intros Hr. rewrite <- Z.land_assoc.
  replace (Z.land (uint256_not role) role) with 0; [apply Z.land_0_r|].
  destruct Hr as [-> | [-> | [-> | ->]]]; by vm_compute.
Qed.

Lemma set_role_bit mask role :
  is_role role -> Z.land (Z.lor mask role) role <> 0.
Proof.
  intros Hr. rewrite Z.land_lor_distr_l, Z.land_diag, Z.lor_eq_0_iff.
  intros [_ ->]. destruct Hr as [?|[?|[?|?]]]; done.
Qed.

Lemma succeeds_iff {A} (m : M A) checks (a : A) after s :
  m s = guarded checks a after s ->
  (succeeds m s <-> first_failure checks = None).
Proof.
  intros E. unfold succeeds. rewrite (call_guarded _ _ _ _ _ E).
  unfold guarded. destruct (first_failure checks); split; try done.
  - by intros (? & ? & ?).
  - eauto.
Qed.

Lemma call_success {A} (m : M A) checks (a b : A) after s s' :
  m s = guarded checks a after s ->
  call m s = (Success b, s') ->
  first_failure checks = None /\ b = a /\ s' = after.
Proof.
  intros E. rewrite (call_guarded _ _ _ _ _ E). apply guarded_success.
Qed.

Lemma call_reverted {A} (m : M A) checks (a : A) after s r :
  m s = guarded checks a after s ->
  first_failure checks = Some r ->
  call m s = (Reverted r, s).
Proof.
  intros E Hr. rewrite (call_guarded _ _ _ _ _ E). unfold guarded.
  by rewrite Hr.
Qed.

Lemma role_checks_pass tx s account role :
  first_failure (role_checks tx s account role) = None <->
  msg_sender tx = admin s /\ is_role role /\ account <> empty_address.
Proof.
  rewrite first_failure_None. unfold role_checks.
  rewrite !Forall_cons, Forall_nil; simpl.
  rewrite !bool_decide_eq_true, role_in_list_spec. tauto.
Qed.

Lemma role_checks_not_admin tx s account role :
  msg_sender tx <> admin s ->
  first_failure (role_checks tx s account role) = Some Only_admin.
Proof. intros H. simpl. by rewrite bool_decide_eq_false_2. Qed.

Lemma role_checks_invalid tx s account role :
  msg_sender tx = admin s ->
  ~ is_role role \/ account = empty_address ->
  exists r, first_failure (role_checks tx s account role) = Some r /\
            error_kind r = ValidationError.
Proof.
  intros Ha Hbad. simpl. rewrite bool_decide_eq_true_2 by done.
  destruct (decide (account = empty_address)) as [->|Hn].
  - rewrite bool_decide_eq_false_2 by (intros H; by apply H). eauto.
  - rewrite bool_decide_eq_true_2 by done.
    destruct (role_in_list role) eqn:Hr.
    + apply role_in_list_spec in Hr. tauto.
    + eauto.
Qed.

(** C1, as the code has it: granting and revoking a role succeed
    exactly when the caller is the ledger's [admin] address (the
    deployer), the role is one of ADMIN, POLICE, LAB and JUDGE, and the
    principal is not the null address. Any other caller fails with an
    AuthorizationError, an invalid role or the null principal with a
    ValidationError. On success grant OR's the role into the
    principal's mask and revoke AND's the mask with the 256-bit
    complement of the role; nobody else's mask changes. *)
Theorem role_changes_gated_by_admin_address tx s account role :
  let ok := msg_sender tx = admin s /\ is_role role /\
            account <> empty_address in
  (succeeds (grant_role tx account role) s <-> ok) /\
  (succeeds (revoke_role tx account role) s <-> ok) /\
  (msg_sender tx <> admin s ->
   fails_with (grant_role tx account role) s AuthorizationError /\
   fails_with (revoke_role tx account role) s AuthorizationError) /\
  (msg_sender tx = admin s -> ~ is_role role \/ account = empty_address ->
   fails_with (grant_role tx account role) s ValidationError /\
   fails_with (revoke_role tx account role) s ValidationError) /\
  (forall u s', call (grant_role tx account role) s = (Success u, s') ->
     roles_at s' account = Z.lor (roles_at s account) role /\
     holds_role s' account role = true /\
     forall other, other <> account -> roles_at s' other = roles_at s other) /\
  (forall u s', call (revoke_role tx account role) s = (Success u, s') ->
     roles_at s' account = Z.land (roles_at s account) (uint256_not role) /\
     holds_role s' account role = false /\
     forall other, other <> account -> roles_at s' other = roles_at s other).
Proof.
  intros ok. split_and!.
  - rewrite (succeeds_iff _ _ _ _ _ (grant_role_body tx account role s)).
    apply role_checks_pass.
  - rewrite (succeeds_iff _ _ _ _ _ (revoke_role_body tx account role s)).
    apply role_checks_pass.
  - intros Hna. split; exists Only_admin; (split; [|done]).
    + eapply call_reverted; [apply grant_role_body|].
      by apply role_checks_not_admin.
    + eapply call_reverted; [apply revoke_role_body|].
      by apply role_checks_not_admin.
  - intros Ha Hbad.
    destruct (role_checks_invalid tx s account role Ha Hbad) as (r & Hr & Hk).
    split; exists r; (split; [|done]).
    + eapply call_reverted; [apply grant_role_body|done].
    + eapply call_reverted; [apply revoke_role_body|done].
  - intros u s' Hcall.
    apply (call_success _ _ _ _ _ _ _ (grant_role_body tx account role s))
      in Hcall as (Hpass & _ & ->).
    apply role_checks_pass in Hpass as (_ & Hr & _).
    unfold grant_role_effect, holds_role.
    change (roles_at (add_log ?ev ?x)) with (roles_at x).
    split_and!.
    + rewrite roles_at_set_roles. by rewrite decide_True.
    + rewrite roles_at_set_roles, decide_True by done.
      apply bool_decide_eq_true_2. by apply set_role_bit.
    + intros other Ho. rewrite roles_at_set_roles. by rewrite decide_False.
  - intros u s' Hcall.
    apply (call_success _ _ _ _ _ _ _ (revoke_role_body tx account role s))
      in Hcall as (Hpass & _ & ->).
    apply role_checks_pass in Hpass as (_ & Hr & _).
    unfold revoke_role_effect, holds_role.
    change (roles_at (add_log ?ev ?x)) with (roles_at x).
    split_and!.
    + rewrite roles_at_set_roles. by rewrite decide_True.
    + rewrite roles_at_set_roles, decide_True by done.
      apply bool_decide_eq_false_2. intros H. apply H.
      by apply clear_role_bit.
    + intros other Ho. rewrite roles_at_set_roles. by rewrite decide_False.
Qed.

Lemma second_admin_state_facts :
  reachable second_admin_state /\
  holds_role second_admin_state 2 ROLE_ADMIN = true /\
  call (grant_role (mkEnv 2 101) 3 ROLE_POLICE) second_admin_state =
    (Reverted Only_admin, second_admin_state) /\
  call (revoke_role (mkEnv 2 101) 3 ROLE_POLICE) second_admin_state =
    (Reverted Only_admin, second_admin_state).
Proof.
  split_and!.
  - apply reachable_step, reachable_init.
  - by vm_compute.
  - by vm_compute.
  - by vm_compute.
Qed.

(** C1 as stated fails: holding the ADMIN role does not let a caller
    grant a role. Principal 2 holds ADMIN, asks for a defined role on a
    non-null principal, and is turned away; the check is on the [admin]
    address. *)
Lemma admin_role_holder_is_rejected :
  ~ (forall tx s account role,
       reachable s ->
       holds_role s (msg_sender tx) ROLE_ADMIN = true ->
       is_role role -> account <> empty_address ->
       succeeds (grant_role tx account role) s).
Proof.
  intros Hclaim.
  destruct second_admin_state_facts as (Hr & Hrole & Hgrant & _).
  destruct (Hclaim (mkEnv 2 101) second_admin_state 3 ROLE_POLICE Hr Hrole)
    as (u & s' & Hok).
  - right. by left.
  - discriminate.
  - rewrite Hgrant in Hok. discriminate Hok.
Qed.

(** The other half: the deployer who gave up the ADMIN role still
    manages roles. *)
Example admin_address_without_role :
  let s := step (init 1) (mkEnv 1 100, Call_revoke_role 1 ROLE_ADMIN) in
  holds_role s 1 ROLE_ADMIN = false /\
  succeeds (grant_role (mkEnv 1 101) 3 ROLE_POLICE) s.
Proof.
  split; [by vm_compute|].
  eexists _, _. by vm_compute.
Qed.

(** ** What each effect writes *)

Lemma evidence_at_effect tx s c j :
  evidence_at (effect_of tx s c) j =
  match c with
  | Call_register_evidence h cid d cas =>
      if decide (evidence_counter s + 1 = j)
      then mkEvidence (evidence_counter s + 1) h cid d cas (msg_sender tx)
                      (msg_sender tx) (block_timestamp tx) Status_Collected
                      true
      else evidence_at s j
  | Call_transfer_custody i n _ =>
      if decide (i = j) then with_custodian n (evidence_at s i)
      else evidence_at s j
  | Call_set_status i st =>
      if decide (i = j) then with_status st (evidence_at s i)
      else evidence_at s j
  | _ => evidence_at s j
  end.
Proof.
  destruct c; simpl; try done.
  - exact (evidence_at_set_evidence _ _ (set_evidence_counter _ s) j).
  - exact (evidence_at_set_evidence _ _ (set_history _ _ s) j).
  - exact (evidence_at_set_evidence _ _ s j).
Qed.

Lemma history_at_effect tx s c j :
  history_at (effect_of tx s c) j =
  match c with
  | Call_register_evidence h cid d cas =>
      if decide (evidence_counter s + 1 = j)
      then history_at s (evidence_counter s + 1) ++
           [mkCustodyEvent empty_address (msg_sender tx) (block_timestamp tx)
                           initial_registration_reason]
      else history_at s j
  | Call_transfer_custody i n why =>
      if decide (i = j)
      then history_at s i ++
           [mkCustodyEvent (current_custodian (evidence_at s i)) n
                           (block_timestamp tx) why]
      else history_at s j
  | _ => history_at s j
  end.
Proof.
  destruct c; simpl; try done.
  - exact (history_at_set_history _ _ s j).
  - exact (history_at_set_history _ _ s j).
Qed.

Lemma files_at_effect tx s c j :
  files_at (effect_of tx s c) j =
  match c with
  | Call_add_file_to_evidence i h cid ft =>
      if decide (i = j)
      then files_at s i ++
           [mkEvidenceFile h cid ft (msg_sender tx) (block_timestamp tx)]
      else files_at s j
  | _ => files_at s j
  end.
Proof.
  destruct c; simpl; try done.
  exact (files_at_set_files _ _ s j).
Qed.

Lemma registered_at_effect tx s c k :
  registered_at (effect_of tx s c) k =
  match c with
  | Call_register_evidence h _ _ _ =>
      if decide (h = k) then true else registered_at s k
  | _ => registered_at s k
  end.
Proof.
  destruct c; simpl; try done.
  exact (registered_at_set_registered _ _ s k).
Qed.

Lemma evidence_counter_effect tx s c :
  evidence_counter (effect_of tx s c) =
  match c with
  | Call_register_evidence _ _ _ _ => evidence_counter s + 1
  | _ => evidence_counter s
  end.
Proof. by destruct c. Qed.

Lemma admin_effect tx s c : admin (effect_of tx s c) = admin s.
Proof. by destruct c. Qed.

(** ** Evidence records *)

Lemma same_identity_refl e : same_identity e e.
Proof. by repeat split. Qed.

Lemma same_identity_trans e1 e2 e3 :
  same_identity e1 e2 -> same_identity e2 e3 -> same_identity e1 e3.
Proof. unfold same_identity. intuition congruence. Qed.

Lemma step_same_identity s tx c i :
  ledger_inv s -> evidence_exists s i = true ->
  same_identity (evidence_at s i) (evidence_at (step s (tx, c)) i).
Proof.
  intros Hinv Hi.
  destruct (step_cases s tx c) as [(r & _ & ->)|[G ->]];
    [apply same_identity_refl|].
  rewrite evidence_at_effect.
  destruct c; try apply same_identity_refl.
  - destruct (inv_evidence s Hinv i Hi) as ([_ Hle] & _).
    rewrite decide_False by lia. apply same_identity_refl.
  - case_decide; [subst|apply same_identity_refl]. by repeat split.
  - case_decide; [subst|apply same_identity_refl]. by repeat split.
Qed.

Lemma step_exists s tx c i :
  ledger_inv s -> evidence_exists s i = true ->
  evidence_exists (step s (tx, c)) i = true.
Proof.
  intros Hinv Hi.
  destruct (step_same_identity s tx c i Hinv Hi) as (_&_&_&_&_&_&_&He).
  unfold evidence_exists in *. congruence.
Qed.

Lemma ledger_inv_run s trace : ledger_inv s -> ledger_inv (run s trace).
Proof.
  revert s. induction trace as [|[tx c] rest IH]; simpl; intros s Hs; [done|].
  by apply IH, ledger_inv_step.
Qed.

Lemma run_same_identity s trace i :
  ledger_inv s -> evidence_exists s i = true ->
  same_identity (evidence_at s i) (evidence_at (run s trace) i).
Proof.
  revert s. induction trace as [|[tx c] rest IH]; simpl; intros s Hs Hi.
  - apply same_identity_refl.
  - eapply same_identity_trans; [by apply (step_same_identity s tx c)|].
    apply IH; [by apply ledger_inv_step | by apply step_exists].
Qed.

Lemma step_custodian_frame s tx c i :
  current_custodian (evidence_at (step s (tx, c)) i) <>
    current_custodian (evidence_at s i) ->
  ledger_inv s -> evidence_exists s i = true ->
  exists n why, c = Call_transfer_custody i n why /\
                current_custodian (evidence_at (step s (tx, c)) i) = n.
Proof.
  intros Hne Hinv Hi.
  destruct (step_cases s tx c) as [(r & _ & E)|[G E]]; rewrite E in *;
    [done|].
  rewrite evidence_at_effect in *.
  destruct c; try done.
  - destruct (inv_evidence s Hinv i Hi) as ([_ Hle] & _).
    rewrite decide_False in Hne by lia. done.
  - case_decide; [subst|done]. eauto.
  - case_decide; [subst|done]. done.
Qed.

Lemma step_status_frame s tx c i :
  status (evidence_at (step s (tx, c)) i) <> status (evidence_at s i) ->
  ledger_inv s -> evidence_exists s i = true ->
  exists st, c = Call_set_status i st /\
             status (evidence_at (step s (tx, c)) i) = st.
Proof.
  intros Hne Hinv Hi.
  destruct (step_cases s tx c) as [(r & _ & E)|[G E]]; rewrite E in *;
    [done|].
  rewrite evidence_at_effect in *.
  destruct c; try done.
  - destruct (inv_evidence s Hinv i Hi) as ([_ Hle] & _).
    rewrite decide_False in Hne by lia. done.
  - case_decide; [subst|done]. done.
  - case_decide; [subst|done]. eauto.
Qed.

(** C2: once an evidence id exists, no sequence of calls changes its
    id, digest, locator, description, case id, creator or creation
    time, or removes it; a call changes its custodian only if it is a
    [transfer_custody] of that id, and its status only if it is a
    [set_status] of that id. *)
Theorem evidence_record_is_frozen s i :
  reachable s -> evidence_exists s i = true ->
  (forall trace,
     same_identity (evidence_at s i) (evidence_at (run s trace) i)) /\
  (forall tx c,
     current_custodian (evidence_at (step s (tx, c)) i) <>
       current_custodian (evidence_at s i) ->
     exists n why, c = Call_transfer_custody i n why /\
                   current_custodian (evidence_at (step s (tx, c)) i) = n) /\
  (forall tx c,
     status (evidence_at (step s (tx, c)) i) <> status (evidence_at s i) ->
     exists st, c = Call_set_status i st /\
                status (evidence_at (step s (tx, c)) i) = st).
Proof.
  intros Hr Hi. apply reachable_inv in Hr. split_and!.
  - intros trace. by apply run_same_identity.
  - intros tx c Hne. by apply step_custodian_frame.
  - intros tx c Hne. by apply step_status_frame.
Qed.

(** ** Status machine *)

Ltac status_values :=
  unfold is_status, terminal, allowed, Status_Collected, Status_InAnalysis,
    Status_Archived, Status_Invalidated in *.

Lemma allowed_changes a b : allowed a b = true -> a <> b.
Proof.
  status_values. intros H ->.
  repeat (case_bool_decide; simpl in H); try done; lia.
Qed.

Lemma allowed_from_terminal a b : terminal a -> allowed a b = false.
Proof.
  status_values. intros [-> | ->]; by repeat (case_bool_decide; simpl).
Qed.

Lemma allowed_is_status a b : allowed a b = true -> is_status a /\ is_status b.
Proof.
  status_values. intros H.
  repeat (case_bool_decide; simpl in H); try done; lia.
Qed.

(** The guards of [set_status] after existence and role, against the
    transition table. *)
Lemma status_checks_table tx s i st :
  evidence_exists s i = true ->
  holds_role s (msg_sender tx) (Z.lor ROLE_LAB ROLE_JUDGE) = true ->
  is_status (status (evidence_at s i)) ->
  first_failure (status_checks tx s i st) =
  if bool_decide (st = status (evidence_at s i)) then Some Status_unchanged
  else if allowed (status (evidence_at s i)) st then None
  else if bool_decide (status (evidence_at s i) = Status_Collected)
       then Some Invalid_transition_from_Collected
  else if bool_decide (status (evidence_at s i) = Status_InAnalysis)
       then Some Invalid_transition_from_InAnalysis
  else if bool_decide (status (evidence_at s i) = Status_Archived)
       then Some Cannot_transition_from_Archived
  else Some Cannot_transition_from_Invalidated.
Proof.
  intros He Hr Hs. unfold status_checks. simpl. rewrite He, Hr.
  generalize dependent (status (evidence_at s i)). intros old Hs.
  status_values.
  repeat (case_bool_decide; simpl); try done; lia.
Qed.

Lemma status_checks_pass tx s i st :
  is_status (status (evidence_at s i)) ->
  first_failure (status_checks tx s i st) = None <->
  evidence_exists s i = true /\
  holds_role s (msg_sender tx) (Z.lor ROLE_LAB ROLE_JUDGE) = true /\
  st <> status (evidence_at s i) /\
  allowed (status (evidence_at s i)) st = true.
Proof.
  intros Hs. split.
  - intros Hpass.
    assert (evidence_exists s i = true /\
            holds_role s (msg_sender tx) (Z.lor ROLE_LAB ROLE_JUDGE) = true)
      as [He Hr].
    { apply first_failure_None in Hpass. unfold status_checks in Hpass.
      apply Forall_cons in Hpass as [? Hpass].
      by apply Forall_cons in Hpass as [? _]. }
    rewrite status_checks_table in Hpass by done.
    case_bool_decide; [done|].
    destruct (allowed _ st) eqn:Ha; [done|].
    by repeat case_bool_decide.
  - intros (He & Hr & Hne & Ha).
    rewrite status_checks_table by done.
    rewrite bool_decide_eq_false_2 by done. by rewrite Ha.
Qed.

Lemma step_status_path s tx c i :
  ledger_inv s -> evidence_exists s i = true ->
  status (evidence_at (step s (tx, c)) i) = status (evidence_at s i) \/
  allowed (status (evidence_at s i)) (status (evidence_at (step s (tx, c)) i))
    = true.
Proof.
  intros Hinv Hi.
  destruct (decide (status (evidence_at (step s (tx, c)) i)
                    = status (evidence_at s i))) as [|Hne]; [by left|right].
  destruct (step_status_frame s tx c i Hne Hinv Hi) as (st & -> & Hst).
  destruct (step_cases s tx (Call_set_status i st)) as [(r & _ & E)|[G E]].
  - by rewrite E in Hne.
  - rewrite Hst. cbn [checks_of] in G.
    apply status_checks_pass in G; [tauto|].
    by destruct (inv_evidence s Hinv i Hi) as (_ & _ & ? & _).
Qed.

Lemma observed_statuses_valid s trace i :
  ledger_inv s -> evidence_exists s i = true ->
  valid_path (observed_statuses s trace i).
Proof.
  revert s. induction trace as [|[tx c] rest IH]; intros s Hinv Hi; [done|].
  change (valid_path (status (evidence_at s i) ::
            observed_statuses (step s (tx, c)) rest i)).
  specialize (IH (step s (tx, c)) (ledger_inv_step _ _ _ Hinv)
                 (step_exists _ _ _ _ Hinv Hi)).
  destruct rest as [|y rest]; simpl in *.
  - split; [|done].
    destruct (step_status_path s tx c i Hinv Hi) as [->|?]; auto.
  - split; [|done].
    destruct (step_status_path s tx c i Hinv Hi) as [->|?]; auto.
Qed.

Lemma terminal_status_stays s trace i :
  ledger_inv s -> evidence_exists s i = true ->
  terminal (status (evidence_at s i)) ->
  status (evidence_at (run s trace) i) = status (evidence_at s i).
Proof.
  revert s. induction trace as [|[tx c] rest IH]; simpl; intros s Hinv Hi Ht;
    [done|].
  destruct (step_status_path s tx c i Hinv Hi) as [E|Ha].
  - rewrite <- E. apply IH; [by apply ledger_inv_step | by apply step_exists |].
    by rewrite E.
  - by rewrite allowed_from_terminal in Ha.
Qed.

Lemma lab_or_judge s a :
  holds_role s a (Z.lor ROLE_LAB ROLE_JUDGE) =
  holds_role s a ROLE_LAB || holds_role s a ROLE_JUDGE.
Proof. apply holds_role_union. Qed.

Lemma sample_state_reachable : reachable sample_state.
Proof. apply reachable_run, reachable_init. Qed.

(** C3: [set_status] succeeds exactly when the evidence exists, the
    caller holds LAB or JUDGE, the new status differs from the current
    one and the pair is in the transition table; an equal status is a
    ValidationError and leaving Archived or Invalidated an
    InvalidTransitionError. The statuses an evidence id goes through
    form a path through the table, and once Archived or Invalidated the
    status never changes again. *)
Theorem set_status_follows_table tx s i st :
  reachable s ->
  let old := status (evidence_at s i) in
  let authorised :=
    holds_role s (msg_sender tx) ROLE_LAB
    || holds_role s (msg_sender tx) ROLE_JUDGE in
  (succeeds (set_status tx i st) s <->
     evidence_exists s i = true /\ authorised = true /\
     st <> old /\ allowed old st = true) /\
  (evidence_exists s i = true -> authorised = true -> st = old ->
   call (set_status tx i st) s = (Reverted Status_unchanged, s) /\
   error_kind Status_unchanged = ValidationError) /\
  (evidence_exists s i = true -> authorised = true -> terminal old ->
   st <> old ->
   fails_with (set_status tx i st) s InvalidTransitionError) /\
  (forall u s', call (set_status tx i st) s = (Success u, s') ->
     status (evidence_at s' i) = st) /\
  (evidence_exists s i = true ->
   forall trace,
     valid_path (observed_statuses s trace i) /\
     (terminal old -> status (evidence_at (run s trace) i) = old)).
Proof.
  intros Hr old authorised. apply reachable_inv in Hr.
  unfold authorised. rewrite <- lab_or_judge.
  pose proof (set_status_body tx i st s) as Hbody.
  split_and!.
  - rewrite (succeeds_iff _ _ _ _ _ Hbody).
    destruct (decide (evidence_exists s i = true)) as [Hi|Hi].
    + apply status_checks_pass.
      by destruct (inv_evidence s Hr i Hi) as (_ & _ & ? & _).
    + split; [|by intros [? _]].
      apply not_true_is_false in Hi.
      unfold status_checks; simpl. by rewrite Hi.
  - intros Hi Ha ->. split; [|done].
    eapply call_reverted; [exact Hbody|].
    rewrite status_checks_table; try done.
    + by rewrite bool_decide_eq_true_2.
    + by destruct (inv_evidence s Hr i Hi) as (_ & _ & ? & _).
  - intros Hi Ha Ht Hne.
    assert (exists r, first_failure (status_checks tx s i st) = Some r /\
                      error_kind r = InvalidTransitionError) as (r & Hf & Hk).
    { rewrite status_checks_table; try done.
      - rewrite bool_decide_eq_false_2 by done.
        rewrite allowed_from_terminal by done.
        repeat case_bool_decide; eauto.
      - by destruct (inv_evidence s Hr i Hi) as (_ & _ & ? & _). }
    exists r. split; [|done]. by eapply call_reverted.
  - intros u s' Hcall.
    apply (call_success _ _ _ _ _ _ _ Hbody) in Hcall as (_ & _ & ->).
    rewrite (evidence_at_effect tx s (Call_set_status i st)).
    by rewrite decide_True.
  - intros Hi trace. split.
    + by apply observed_statuses_valid.
    + intros Ht. by apply terminal_status_stays.
Qed.

Lemma set_status_follows_table_witness :
  reachable sample_state /\
  succeeds (set_status (mkEnv 2 102) 1 Status_InAnalysis) sample_state.
Proof.
  split; [exact sample_state_reachable|].
  apply (set_status_follows_table (mkEnv 2 102) sample_state 1
           Status_InAnalysis sample_state_reachable).
  by vm_compute.
Defined.

Lemma evidence_record_is_frozen_witness :
  reachable sample_state /\ evidence_exists sample_state 1 = true /\
  forall trace,
    same_identity (evidence_at sample_state 1)
                  (evidence_at (run sample_state trace) 1).
Proof.
  split; [exact sample_state_reachable|]. split; [by vm_compute|].
  apply (evidence_record_is_frozen sample_state 1 sample_state_reachable).
  by vm_compute.
Defined.

(** ** Custody chain *)

Lemma custody_chain_first prev h c first :
  custody_chain prev h c -> h !! 0%nat = Some first ->
  from_address first = prev.
Proof. destruct h; simpl; [done|]. by intros [? _] [= ->]. Qed.

Lemma custody_chain_links prev h c k a b :
  custody_chain prev h c -> h !! k = Some a -> h !! S k = Some b ->
  to_address a = from_address b.
Proof.
  revert prev k. induction h as [|e t IH]; intros prev k; [done|].
  simpl. intros [_ Ht]. destruct k as [|k]; simpl.
  - intros [= ->] Hb. symmetry. by eapply custody_chain_first.
  - intros Ha Hb. by eapply IH.
Qed.

Lemma custody_chain_last prev h c lst :
  custody_chain prev h c -> last h = Some lst -> to_address lst = c.
Proof.
  revert prev. induction h as [|e t IH]; intros prev; [done|].
  simpl. intros [_ Ht]. destruct t as [|e' t'].
  - simpl in *. by intros [= ->].
  - intros Hl. by eapply IH.
Qed.

Lemma step_history_prefix s x j :
  history_at s j `prefix_of` history_at (step s x) j.
Proof.
  destruct x as [tx c].
  destruct (step_cases s tx c) as [(r & _ & ->)|[G ->]]; [done|].
  rewrite history_at_effect.
  destruct c; try done; case_decide; subst; try done;
    by apply prefix_app_r.
Qed.

Lemma run_history_prefix s trace j :
  history_at s j `prefix_of` history_at (run s trace) j.
Proof.
  revert s. induction trace as [|x rest IH]; simpl; intros s; [done|].
  etrans; [apply step_history_prefix | apply IH].
Qed.

Lemma step_files_prefix s x j :
  files_at s j `prefix_of` files_at (step s x) j.
Proof.
  destruct x as [tx c].
  destruct (step_cases s tx c) as [(r & _ & ->)|[G ->]]; [done|].
  rewrite files_at_effect.
  destruct c; try done; case_decide; subst; try done;
    by apply prefix_app_r.
Qed.

Lemma run_files_prefix s trace j :
  files_at s j `prefix_of` files_at (run s trace) j.
Proof.
  revert s. induction trace as [|x rest IH]; simpl; intros s; [done|].
  etrans; [apply step_files_prefix | apply IH].
Qed.

(** C4: in every reachable state the custody history of an existing
    evidence id is non-empty, starts from the null principal, hands
    over from each entry's recipient to the next entry's sender, and
    ends with the current custodian; whatever calls follow, the history
    of that moment stays as the front of the later history. *)
Theorem custody_history_is_a_chain s i :
  reachable s -> evidence_exists s i = true ->
  let h := history_at s i in
  h <> [] /\
  (exists first, h !! 0%nat = Some first /\
                 from_address first = empty_address) /\
  (forall k a b, h !! k = Some a -> h !! S k = Some b ->
                 to_address a = from_address b) /\
  (exists lst, last h = Some lst /\
               to_address lst = current_custodian (evidence_at s i)) /\
  (forall trace, h `prefix_of` history_at (run s trace) i).
Proof.
  intros Hr Hi h. apply reachable_inv in Hr.
  destruct (inv_evidence s Hr i Hi) as (_ & _ & _ & Hne & Hch).
  fold h in Hne, Hch. split_and!.
  - done.
  - destruct h as [|e t] eqn:E; [done|]. exists e. split; [done|].
    by destruct Hch.
  - intros k a b. by eapply custody_chain_links.
  - destruct (last h) as [lst|] eqn:El.
    + exists lst. split; [done|]. by eapply custody_chain_last.
    + apply last_None in El. done.
  - intros trace. apply run_history_prefix.
Qed.

Lemma custody_history_is_a_chain_witness :
  reachable sample_state /\ evidence_exists sample_state 1 = true /\
  history_at sample_state 1 <> [].
Proof.
  split; [exact sample_state_reachable|]. split; [by vm_compute|].
  apply (custody_history_is_a_chain sample_state 1 sample_state_reachable).
  by vm_compute.
Defined.

(** ** Evidence registry *)

Lemma register_checks_pass tx s h cid d cas :
  first_failure (register_checks tx s h cid d cas) = None <->
  holds_role s (msg_sender tx) ROLE_POLICE = true /\
  h <> empty_bytes32 /\ len d > 0 /\ len cas > 0 /\ len cid > 0 /\
  registered_at s h = false /\
  evidence_counter s + 1 <= MAX_UINT256 /\
  Z.of_nat (length (history_at s (evidence_counter s + 1))) < CUSTODY_CAPACITY /\
  len cid <= 100 /\ len d <= 500 /\ len cas <= 50.
Proof.
  rewrite first_failure_None. unfold register_checks.
  rewrite !Forall_cons, Forall_nil; simpl.
  rewrite !bool_decide_eq_true, negb_true_iff. tauto.
Qed.

Lemma step_counter_mono s x :
  evidence_counter s <= evidence_counter (step s x).
Proof.
  destruct x as [tx c].
  destruct (step_cases s tx c) as [(r & _ & ->)|[G ->]]; [done|].
  rewrite evidence_counter_effect. destruct c; lia.
Qed.

Lemma run_counter_mono s trace :
  evidence_counter s <= evidence_counter (run s trace).
Proof.
  revert s. induction trace as [|x rest IH]; simpl; intros s; [done|].
  etrans; [apply step_counter_mono | apply IH].
Qed.

Lemma step_registered s x k :
  registered_at s k = true -> registered_at (step s x) k = true.
Proof.
  intros Hk. destruct x as [tx c].
  destruct (step_cases s tx c) as [(r & _ & ->)|[G ->]]; [done|].
  rewrite registered_at_effect. destruct c; try done. by case_decide.
Qed.

Lemma run_registered s trace k :
  registered_at s k = true -> registered_at (run s trace) k = true.
Proof.
  revert s. induction trace as [|x rest IH]; simpl; intros s Hk; [done|].
  by apply IH, step_registered.
Qed.

Lemma run_exists s trace i :
  ledger_inv s -> evidence_exists s i = true ->
  evidence_exists (run s trace) i = true.
Proof.
  intros Hinv Hi.
  destruct (run_same_identity s trace i Hinv Hi) as (_&_&_&_&_&_&_&He).
  unfold evidence_exists in *. congruence.
Qed.

Lemma fresh_id_unused s i :
  ledger_inv s -> evidence_counter s < i ->
  evidence_exists s i = false /\ history_at s i = [].
Proof.
  intros Hinv Hi. split.
  - apply not_true_is_false. intros He.
    destruct (inv_evidence s Hinv i He) as ([_ ?] & _). lia.
  - destruct (history_at s i) eqn:E; [done|].
    pose proof (inv_history_dom s Hinv i) as Hd. rewrite E in Hd.
    specialize (Hd ltac:(done)). lia.
Qed.

(** C7: a successful registration returns the counter plus one, an id
    no evidence had before and no later registration returns again; in
    the same transaction the counter becomes that id, the record is
    stored as Collected with the caller as creator and custodian, the
    digest is marked registered, the history of the id is the single
    event from the null principal to the caller with the reason
    "Initial registration", and no other record or history changes.
    It succeeded only for a POLICE caller with a non-zero, unregistered
    digest and non-empty strings. *)
Theorem register_evidence_success tx s h cid d cas i s' :
  reachable s ->
  call (register_evidence tx h cid d cas) s = (Success i, s') ->
  (i = evidence_counter s + 1 /\ 0 < i /\ evidence_counter s' = i) /\
  (evidence_exists s i = false /\
   forall trace tx2 h2 cid2 d2 cas2 i2 s2,
     call (register_evidence tx2 h2 cid2 d2 cas2) (run s' trace)
       = (Success i2, s2) -> i < i2) /\
  evidence_at s' i =
    mkEvidence i h cid d cas (msg_sender tx) (msg_sender tx)
               (block_timestamp tx) Status_Collected true /\
  registered_at s' h = true /\
  history_at s' i =
    [mkCustodyEvent empty_address (msg_sender tx) (block_timestamp tx)
                    "Initial registration"] /\
  (forall j, j <> i -> evidence_at s' j = evidence_at s j /\
                       history_at s' j = history_at s j) /\
  (holds_role s (msg_sender tx) ROLE_POLICE = true /\
   h <> empty_bytes32 /\ registered_at s h = false /\
   len d > 0 /\ len cas > 0 /\ len cid > 0).
Proof.
  intros Hr Hcall. apply reachable_inv in Hr.
  rewrite register_evidence_call in Hcall.
  apply guarded_success in Hcall as (Hpass & -> & ->).
  apply register_checks_pass in Hpass
    as (Hrole & Hh & Hd & Hcas & Hcid & Hnew & Hmax & Hroom).
  pose proof (inv_counter s Hr) as [Hc0 _].
  destruct (fresh_id_unused s (evidence_counter s + 1) Hr ltac:(lia))
    as [Hunused Hempty].
  set (c := Call_register_evidence h cid d cas).
  change (register_effect tx s h cid d cas) with (effect_of tx s c).
  split_and!; try done; try lia.
  - intros trace tx2 h2 cid2 d2 cas2 i2 s2 Hcall2.
    rewrite register_evidence_call in Hcall2.
    apply guarded_success in Hcall2 as (_ & -> & _).
    pose proof (run_counter_mono (effect_of tx s c) trace) as Hm.
    rewrite evidence_counter_effect in Hm. subst c. simpl in *. lia.
  - rewrite evidence_at_effect. simpl. by rewrite decide_True.
  - rewrite registered_at_effect. simpl. by rewrite decide_True.
  - rewrite history_at_effect. simpl. rewrite decide_True by done.
    by rewrite Hempty.
  - intros j Hj. split.
    + rewrite evidence_at_effect. simpl. by rewrite decide_False.
    + rewrite history_at_effect. simpl. by rewrite decide_False.
Qed.

Lemma register_evidence_success_witness :
  let tx := mkEnv 1 103 in
  let r := call (register_evidence tx 9 "QmB" "second" "CASE-2") sample_state in
  r.1 = Success 2 /\ evidence_counter r.2 = 2 /\
  history_at r.2 2 = [mkCustodyEvent 0 1 103 "Initial registration"].
Proof.
  intros tx r.
  assert (Hcall : call (register_evidence tx 9 "QmB" "second" "CASE-2")
                       sample_state = (Success 2, r.2)) by (by vm_compute).
  pose proof (register_evidence_success tx sample_state 9 "QmB" "second"
                "CASE-2" 2 r.2 sample_state_reachable Hcall)
    as ((_ & _ & Hc) & _ & _ & _ & Hh & _).
  split; [by vm_compute|]. split; [exact Hc | exact Hh].
Defined.

(** The guards a second registration of a known digest can stop at. *)
Lemma register_checks_known_digest tx s h cid d cas :
  h <> empty_bytes32 -> registered_at s h = true ->
  exists r,
    first_failure (register_checks tx s h cid d cas) = Some r /\
    (holds_role s (msg_sender tx) ROLE_POLICE = true ->
     0 < len cid <= 100 -> 0 < len d <= 500 -> 0 < len cas <= 50 ->
     r = Evidence_already_registered) /\
    (~ (len cid <= 100 /\ len d <= 500 /\ len cas <= 50) ->
     r = Argument_out_of_bounds) /\
    (r = Argument_out_of_bounds \/ r = Unauthorized_role \/
     r = Empty_string \/ r = Empty_case_ID \/ r = Empty_IPFS_CID \/
     r = Evidence_already_registered).
Proof.
  intros Hh Hreg. unfold register_checks. cbn [first_failure].
  rewrite Hreg, (bool_decide_eq_true_2 _ Hh).
  destruct (holds_role s (msg_sender tx) ROLE_POLICE);
    repeat case_bool_decide; simpl;
    (eexists; split; [reflexivity|]);
    (split_and!; [intros; first [done | lia] | intros; first [done | lia]
                 | tauto]).
Qed.

(** C5, as the code has it: after a successful registration of a
    digest, every later registration of that digest fails, whoever
    calls and whatever the other arguments, and leaves the ledger, its
    evidence count included, as it was. The failure is the
    DuplicateError when the caller holds POLICE and description, case
    id and locator are non-empty and within the bounds of their types
    (500, 50 and 100 bytes); the arguments are decoded and the role and
    the strings checked before the digest, so otherwise it is the
    ValidationError of an oversized argument or else the
    AuthorizationError or ValidationError of the first check that
    fails. The first id stays valid with its record intact, and no call
    ever unregisters a digest. *)
Theorem duplicate_digest_is_rejected tx1 s h cid d cas i s1 :
  reachable s ->
  call (register_evidence tx1 h cid d cas) s = (Success i, s1) ->
  forall trace tx2 cid2 d2 cas2,
    let s2 := run s1 trace in
    (exists r,
       call (register_evidence tx2 h cid2 d2 cas2) s2 = (Reverted r, s2) /\
       (holds_role s2 (msg_sender tx2) ROLE_POLICE = true ->
        0 < len cid2 <= 100 -> 0 < len d2 <= 500 -> 0 < len cas2 <= 50 ->
        r = Evidence_already_registered /\
        error_kind r = DuplicateError) /\
       (~ (len cid2 <= 100 /\ len d2 <= 500 /\ len cas2 <= 50) ->
        r = Argument_out_of_bounds /\ error_kind r = ValidationError) /\
       (error_kind r = DuplicateError \/ error_kind r = AuthorizationError \/
        error_kind r = ValidationError)) /\
    evidence_counter
      (step s2 (tx2, Call_register_evidence h cid2 d2 cas2))
      = evidence_counter s2 /\
    evidence_exists s2 i = true /\
    same_identity (evidence_at s1 i) (evidence_at s2 i) /\
    (forall st x k,
       registered_at st k = true -> registered_at (step st x) k = true).
Proof.
  intros Hr Hcall trace tx2 cid2 d2 cas2 s2.
  apply reachable_inv in Hr.
  rewrite register_evidence_call in Hcall.
  apply guarded_success in Hcall as (Hpass & -> & Hs1).
  assert (Hinv1 : ledger_inv s1).
  { rewrite Hs1.
    by apply (ledger_inv_effect tx1 (Call_register_evidence h cid d cas)). }
  apply register_checks_pass in Hpass as (_ & Hh & _).
  assert (Hex1 : evidence_exists s1 (evidence_counter s + 1) = true).
  { rewrite Hs1. unfold evidence_exists.
    rewrite (evidence_at_effect tx1 s (Call_register_evidence h cid d cas)).
    by rewrite decide_True. }
  assert (Hreg : registered_at s1 h = true).
  { rewrite Hs1.
    rewrite (registered_at_effect tx1 s (Call_register_evidence h cid d cas)).
    by rewrite decide_True. }
  assert (Hreg2 : registered_at s2 h = true) by (by apply run_registered).
  destruct (register_checks_known_digest tx2 s2 h cid2 d2 cas2 Hh Hreg2)
    as (r & Hfail & Hdup & Hbig & Hkinds).
  split_and!.
  - exists r. split_and!.
    + rewrite register_evidence_call. unfold guarded. by rewrite Hfail.
    + intros Hp H1 H2 H3. by rewrite (Hdup Hp H1 H2 H3).
    + intros Hno. by rewrite (Hbig Hno).
    + destruct Hkinds as [-> | [-> | [-> | [-> | [-> | ->]]]]]; simpl; tauto.
  - rewrite step_guarded. cbn [checks_of]. by rewrite Hfail.
  - by apply run_exists.
  - by apply run_same_identity.
  - intros st x k. apply step_registered.
Qed.

Lemma duplicate_digest_is_rejected_witness :
  let s1 := (call (register_evidence (mkEnv 1 103) 9 "QmB" "second"
                     "CASE-2") sample_state).2 in
  exists r,
    call (register_evidence (mkEnv 1 104) 9 "QmC" "again" "CASE-3") s1
      = (Reverted r, s1).
Proof.
  intros s1.
  assert (Hcall : call (register_evidence (mkEnv 1 103) 9 "QmB" "second"
                          "CASE-2") sample_state = (Success 2, s1))
    by (by vm_compute).
  destruct (duplicate_digest_is_rejected _ _ _ _ _ _ _ _
              sample_state_reachable Hcall [] (mkEnv 1 104) "QmC" "again"
              "CASE-3") as ((r & Hrej & _) & _).
  exists r. exact Hrej.
Defined.

Lemma sample_state_facts :
  call (register_evidence (mkEnv 1 101) 7 "QmCID" "desc" "CASE-1")
       (step (init 1) (mkEnv 1 100, Call_grant_role 2 ROLE_LAB))
    = (Success 1, sample_state) /\
  call (register_evidence (mkEnv 5 102) 7 "QmCID" "desc" "CASE-1")
       sample_state = (Reverted Unauthorized_role, sample_state).
Proof. split; by vm_compute. Qed.

(** C5 as stated fails: the second registration of a digest does not
    fail with a DuplicateError whoever calls. Principal 5 holds no role
    and registers the digest evidence 1 carries; the call fails at the
    role check, with an AuthorizationError. *)
Lemma duplicate_by_unauthorised_caller :
  ~ (forall tx1 s h cid d cas i s1 tx2 cid2 d2 cas2,
       reachable s ->
       call (register_evidence tx1 h cid d cas) s = (Success i, s1) ->
       fails_with (register_evidence tx2 h cid2 d2 cas2) s1 DuplicateError).
Proof.
  intros Hclaim. destruct sample_state_facts as (Hfirst & Hsecond).
  destruct (Hclaim _ _ _ _ _ _ _ _ (mkEnv 5 102) "QmCID" "desc" "CASE-1"
              (reachable_step _ _ _ (reachable_init 1)) Hfirst)
    as (r & Hcall & Hkind).
  rewrite Hsecond in Hcall. injection Hcall as <-. discriminate Hkind.
Qed.

(** ** Custody transfers *)

Lemma transfer_checks_pass tx s i n why :
  first_failure (transfer_checks tx s i n why) = None <->
  evidence_exists s i = true /\
  current_custodian (evidence_at s i) = msg_sender tx /\
  n <> empty_address /\ len why > 0 /\ roles_at s n <> 0 /\
  n <> msg_sender tx /\
  Z.of_nat (length (history_at s i)) < CUSTODY_CAPACITY /\
  len why <= 200.
Proof.
  rewrite first_failure_None. unfold transfer_checks.
  rewrite !Forall_cons, Forall_nil; simpl.
  rewrite !bool_decide_eq_true. tauto.
Qed.

Lemma transfer_checks_full tx s i n why :
  evidence_exists s i = true ->
  current_custodian (evidence_at s i) = msg_sender tx ->
  n <> empty_address -> len why > 0 -> roles_at s n <> 0 ->
  n <> msg_sender tx ->
  ~ Z.of_nat (length (history_at s i)) < CUSTODY_CAPACITY ->
  len why <= 200 ->
  first_failure (transfer_checks tx s i n why) = Some DynArray_full.
Proof.
  intros He Hc Hn Hw Hr Hs Hfull Hfit. unfold transfer_checks; simpl.
  rewrite He. rewrite !bool_decide_eq_true_2 by done.
  by rewrite bool_decide_eq_false_2.
Qed.

(** C6, as the code has it: [transfer_custody] succeeds exactly when
    the evidence exists, the caller is its current custodian, the new
    custodian is non-null, is not the caller and holds at least one
    role, the reason is non-empty and at most 200 bytes long, and the
    custody history holds fewer than 1000 events. A reason longer than
    the 200 bytes of its type is rejected before anything else is
    looked at; with a reason that fits, a caller who is not the
    custodian fails with an AuthorizationError whatever roles they
    hold. On success the event (old custodian, new custodian, now,
    reason) is appended to the history and the new custodian becomes
    the current one; nothing else of the record changes. *)
Theorem transfer_custody_by_current_holder tx s i n why :
  let holder := current_custodian (evidence_at s i) in
  (succeeds (transfer_custody tx i n why) s <->
     evidence_exists s i = true /\ holder = msg_sender tx /\
     n <> empty_address /\ n <> msg_sender tx /\ roles_at s n <> 0 /\
     0 < len why <= 200 /\
     Z.of_nat (length (history_at s i)) < 1000) /\
  (200 < len why ->
   call (transfer_custody tx i n why) s = (Reverted Argument_out_of_bounds, s) /\
   error_kind Argument_out_of_bounds = ValidationError) /\
  (len why <= 200 -> evidence_exists s i = true -> holder <> msg_sender tx ->
   call (transfer_custody tx i n why) s = (Reverted Not_custodian, s) /\
   error_kind Not_custodian = AuthorizationError) /\
  (forall u s',
     call (transfer_custody tx i n why) s = (Success u, s') ->
     history_at s' i =
       history_at s i ++ [mkCustodyEvent holder n (block_timestamp tx) why] /\
     current_custodian (evidence_at s' i) = n /\
     status (evidence_at s' i) = status (evidence_at s i) /\
     same_identity (evidence_at s i) (evidence_at s' i)).
Proof.
  intros holder. pose proof (transfer_custody_body tx i n why s) as Hbody.
  split_and!.
  - rewrite (succeeds_iff _ _ _ _ _ Hbody), transfer_checks_pass.
    unfold holder, CUSTODY_CAPACITY. intuition lia.
  - intros Hbig. split; [|done].
    eapply call_reverted; [exact Hbody|].
    unfold transfer_checks; simpl.
    by rewrite (bool_decide_eq_false_2 (len why <= 200)) by lia.
  - intros Hfit He Hne. split; [|done].
    eapply call_reverted; [exact Hbody|].
    unfold transfer_checks; simpl.
    rewrite (bool_decide_eq_true_2 (len why <= 200)) by done. rewrite He.
    by rewrite bool_decide_eq_false_2.
  - intros u s' Hcall.
    apply (call_success _ _ _ _ _ _ _ Hbody) in Hcall as (_ & _ & ->).
    change (transfer_effect tx s i n why)
      with (effect_of tx s (Call_transfer_custody i n why)).
    rewrite history_at_effect, evidence_at_effect. simpl.
    rewrite !decide_True by done. by repeat split.
Qed.

Lemma full_history_state_reachable : reachable full_history_state.
Proof. apply reachable_run, sample_state_reachable. Qed.

Lemma full_history_state_facts :
  evidence_exists full_history_state 1 = true /\
  current_custodian (evidence_at full_history_state 1) = 2 /\
  status (evidence_at full_history_state 1) = Status_Collected /\
  roles_at full_history_state 1 = 15 /\
  length (history_at full_history_state 1) = 1000%nat.
Proof. vm_compute. by repeat split. Qed.

Lemma full_history_transfer_reverts s :
  evidence_exists s 1 = true ->
  current_custodian (evidence_at s 1) = 2 ->
  roles_at s 1 = 15 ->
  length (history_at s 1) = 1000%nat ->
  call (transfer_custody (mkEnv 2 5000) 1 1 "handoff") s
    = (Reverted DynArray_full, s).
Proof.
  intros He Hc Hr Hl.
  eapply call_reverted; [apply transfer_custody_body|].
  apply transfer_checks_full.
  - exact He.
  - exact Hc.
  - discriminate.
  - reflexivity.
  - rewrite Hr. discriminate.
  - discriminate.
  - rewrite Hl. unfold CUSTODY_CAPACITY. lia.
  - by vm_compute.
Qed.

(** C6 as stated fails: the listed conditions do not suffice. Evidence
    1 exists, principal 2 is its custodian and hands it to principal 1,
    who is non-null, different and enrolled, with a reason; the call is
    rejected because the history of evidence 1 is at its capacity of
    1000 events. *)
Lemma transfer_rejected_at_capacity :
  ~ (forall tx s i n why,
       reachable s ->
       evidence_exists s i = true ->
       current_custodian (evidence_at s i) = msg_sender tx ->
       n <> empty_address -> n <> msg_sender tx -> roles_at s n <> 0 ->
       len why > 0 ->
       succeeds (transfer_custody tx i n why) s).
Proof.
  intros Hclaim.
  destruct full_history_state_facts as (He & Hc & _ & Hr & Hl).
  destruct (Hclaim (mkEnv 2 5000) full_history_state 1 1 "handoff"
              full_history_state_reachable He Hc) as (u & s' & Hok).
  - discriminate.
  - discriminate.
  - rewrite Hr. discriminate.
  - reflexivity.
  - rewrite (full_history_transfer_reverts _ He Hc Hr Hl) in Hok.
    discriminate Hok.
Qed.

(** ** File attachments and capacities *)

Lemma add_file_checks_pass tx s i h cid ft :
  first_failure (add_file_checks tx s i h cid ft) = None <->
  evidence_exists s i = true /\ holds_role s (msg_sender tx) ROLE_LAB = true /\
  h <> empty_bytes32 /\ len cid > 0 /\ len ft > 0 /\
  Z.of_nat (length (files_at s i)) < FILES_CAPACITY /\
  len cid <= 100 /\ len ft <= 50.
Proof.
  rewrite first_failure_None. unfold add_file_checks.
  rewrite !Forall_cons, Forall_nil; simpl.
  rewrite !bool_decide_eq_true. tauto.
Qed.

Lemma add_file_checks_full tx s i h cid ft :
  evidence_exists s i = true -> holds_role s (msg_sender tx) ROLE_LAB = true ->
  h <> empty_bytes32 -> len cid > 0 -> len ft > 0 ->
  ~ Z.of_nat (length (files_at s i)) < FILES_CAPACITY ->
  len cid <= 100 -> len ft <= 50 ->
  first_failure (add_file_checks tx s i h cid ft) = Some DynArray_full.
Proof.
  intros He Hr Hh Hc Hf Hfull Hfit1 Hfit2. unfold add_file_checks; simpl.
  rewrite He, Hr. rewrite !bool_decide_eq_true_2 by done.
  by rewrite bool_decide_eq_false_2.
Qed.

(** A failing guard stops the call. *)
Lemma first_failure_of_false checks b r :
  (b, r) ∈ checks -> b = false ->
  exists r', first_failure checks = Some r'.
Proof.
  intros Hin ->. destruct (first_failure checks) as [r'|] eqn:E; [eauto|].
  apply first_failure_None in E.
  rewrite Forall_forall in E. by specialize (E _ Hin).
Qed.

Lemma capacity_guard_last_transfer tx s i n why :
  Z.of_nat (length (history_at s i)) = CUSTODY_CAPACITY ->
  exists r, first_failure (transfer_checks tx s i n why) = Some r.
Proof.
  intros Hfull.
  apply (first_failure_of_false _ false DynArray_full); [|done].
  unfold transfer_checks.
  rewrite (bool_decide_eq_false_2 (_ < CUSTODY_CAPACITY)) by lia.
  do 7 right. left.
Qed.

Lemma capacity_guard_last_add_file tx s i h cid ft :
  Z.of_nat (length (files_at s i)) = FILES_CAPACITY ->
  exists r, first_failure (add_file_checks tx s i h cid ft) = Some r.
Proof.
  intros Hfull.
  apply (first_failure_of_false _ false DynArray_full); [|done].
  unfold add_file_checks.
  rewrite (bool_decide_eq_false_2 (_ < FILES_CAPACITY)) by lia.
  do 7 right. left.
Qed.

(** C9: the custody history of an evidence id never holds more than
    1000 events and its file list never more than 100 files. A
    transfer against a full history, or an attachment against a full
    file list, is rejected and changes nothing; when every other
    precondition holds the rejection carries no reason string, and for
    string arguments within the bounds of their types it is the
    capacity failure of the append. No call shortens, reorders or
    overwrites either list: the list before a call is the front of the
    list after it. *)
Theorem history_and_files_are_bounded s :
  reachable s ->
  CUSTODY_CAPACITY = 1000 /\ FILES_CAPACITY = 100 /\
  (forall i, Z.of_nat (length (history_at s i)) <= CUSTODY_CAPACITY /\
             Z.of_nat (length (files_at s i)) <= FILES_CAPACITY) /\
  (forall tx i n why,
     Z.of_nat (length (history_at s i)) = CUSTODY_CAPACITY ->
     exists r,
       call (transfer_custody tx i n why) s = (Reverted r, s) /\
       (evidence_exists s i = true ->
        current_custodian (evidence_at s i) = msg_sender tx ->
        n <> empty_address -> len why > 0 -> roles_at s n <> 0 ->
        n <> msg_sender tx ->
        revert_message r = None /\
        (len why <= 200 ->
         r = DynArray_full /\ error_kind r = CapacityExceeded))) /\
  (forall tx i h cid ft,
     Z.of_nat (length (files_at s i)) = FILES_CAPACITY ->
     exists r,
       call (add_file_to_evidence tx i h cid ft) s = (Reverted r, s) /\
       (evidence_exists s i = true ->
        holds_role s (msg_sender tx) ROLE_LAB = true ->
        h <> empty_bytes32 -> len cid > 0 -> len ft > 0 ->
        revert_message r = None /\
        (len cid <= 100 -> len ft <= 50 ->
         r = DynArray_full /\ error_kind r = CapacityExceeded))) /\
  (forall x i,
     history_at s i `prefix_of` history_at (step s x) i /\
     files_at s i `prefix_of` files_at (step s x) i).
Proof.
  intros Hr. apply reachable_inv in Hr. split_and!; try done.
  - intros i. split; [apply (inv_history_cap s Hr) | apply (inv_files_cap s Hr)].
  - intros tx i n why Hfull.
    destruct (capacity_guard_last_transfer tx s i n why Hfull) as [r Hf].
    exists r. split.
    + eapply call_reverted; [apply transfer_custody_body | exact Hf].
    + intros He Hc Hn Hw Hro Hs.
      destruct (decide (len why <= 200)) as [Hfit|Hbig].
      * rewrite transfer_checks_full in Hf; try done; [|lia].
        by injection Hf as <-.
      * unfold transfer_checks in Hf; simpl in Hf.
        rewrite (bool_decide_eq_false_2 (len why <= 200)) in Hf by done.
        by injection Hf as <-.
  - intros tx i h cid ft Hfull.
    destruct (capacity_guard_last_add_file tx s i h cid ft Hfull) as [r Hf].
    exists r. split.
    + eapply call_reverted; [apply add_file_to_evidence_body | exact Hf].
    + intros He Hro Hh Hc Hft.
      destruct (decide (len cid <= 100 /\ len ft <= 50)) as [[? ?]|Hbig].
      * rewrite add_file_checks_full in Hf; try done; [|lia].
        by injection Hf as <-.
      * unfold add_file_checks in Hf; simpl in Hf.
        split; [|intros; tauto].
        by repeat case_bool_decide; simplify_eq; try tauto.
  - intros x i. split; [apply step_history_prefix | apply step_files_prefix].
Qed.

Lemma history_and_files_are_bounded_witness :
  reachable sample_state /\
  Z.of_nat (length (history_at sample_state 1)) <= CUSTODY_CAPACITY.
Proof.
  split; [exact sample_state_reachable|].
  destruct (history_and_files_are_bounded sample_state
              sample_state_reachable) as (_ & _ & Hbound & _).
  exact (proj1 (Hbound 1)).
Defined.

(** ** Transfers and lifecycle status *)

Lemma transfer_checks_restatus tx s st i n why :
  transfer_checks tx (restatus st i s) i n why = transfer_checks tx s i n why.
Proof.
  unfold transfer_checks, restatus, evidence_exists.
  rewrite !evidence_at_set_evidence, !decide_True by done.
  reflexivity.
Qed.

(** Replacing the status of a record and transferring it commute. *)
Lemma transfer_effect_restatus tx s st i n why :
  transfer_effect tx (restatus st i s) i n why
  = restatus st i (transfer_effect tx s i n why).
Proof.
  unfold restatus at 2.
  change (transfer_effect tx s i n why)
    with (effect_of tx s (Call_transfer_custody i n why)) at 1.
  rewrite evidence_at_effect. cbn [effect_of]. rewrite decide_True by done.
  unfold transfer_effect, restatus.
  rewrite !evidence_at_set_evidence, !decide_True by done.
  unfold history_at, set_history, set_evidence, add_log, with_status,
    with_custodian; simpl.
  by rewrite !insert_insert_eq.
Qed.

(** C10: [transfer_custody] does not look at the lifecycle status.
    Whatever status the record of an evidence carries, the call has
    the same outcome: it is rejected with the same failure or it
    succeeds with the same effect, the status staying what it was; so
    it succeeds for Archived or Invalidated evidence exactly when it
    would for Collected or InAnalysis evidence. In particular, for
    Archived or Invalidated evidence a transfer by the current
    custodian to a non-null, enrolled, different principal, with a
    non-empty reason of at most 200 bytes and a history of fewer than
    1000 events (the conditions of a transfer under any status),
    succeeds: it appends the custody event, makes the new custodian
    current and leaves the status alone. *)
Theorem transfer_custody_ignores_status tx s i n why :
  (forall st,
     call (transfer_custody tx i n why) (restatus st i s) =
     match call (transfer_custody tx i n why) s with
     | (Success u, s') => (Success u, restatus st i s')
     | (Reverted r, _) => (Reverted r, restatus st i s)
     end) /\
  (forall st,
     succeeds (transfer_custody tx i n why) (restatus st i s) <->
     succeeds (transfer_custody tx i n why) s) /\
  (evidence_exists s i = true ->
   terminal (status (evidence_at s i)) ->
   current_custodian (evidence_at s i) = msg_sender tx ->
   n <> empty_address -> n <> msg_sender tx -> roles_at s n <> 0 ->
   0 < len why <= 200 ->
   Z.of_nat (length (history_at s i)) < 1000 ->
   let ev := mkCustodyEvent (msg_sender tx) n (block_timestamp tx) why in
   (exists s',
      call (transfer_custody tx i n why) s = (Success tt, s') /\
      history_at s' i = history_at s i ++ [ev] /\
      current_custodian (evidence_at s' i) = n /\
      status (evidence_at s' i) = status (evidence_at s i)) /\
   (forall st,
    exists s',
      call (transfer_custody tx i n why) (restatus st i s)
        = (Success tt, s') /\
      history_at s' i = history_at s i ++ [ev] /\
      current_custodian (evidence_at s' i) = n /\
      status (evidence_at s' i) = st)).
Proof.
  assert (Hsame : forall st,
     call (transfer_custody tx i n why) (restatus st i s) =
     match call (transfer_custody tx i n why) s with
     | (Success u, s') => (Success u, restatus st i s')
     | (Reverted r, _) => (Reverted r, restatus st i s)
     end).
  { intros st.
    rewrite (call_guarded _ _ _ _ _
               (transfer_custody_body tx i n why (restatus st i s))).
    rewrite (call_guarded _ _ _ _ _ (transfer_custody_body tx i n why s)).
    unfold guarded. rewrite transfer_checks_restatus.
    destruct (first_failure (transfer_checks tx s i n why)); [done|].
    by rewrite transfer_effect_restatus. }
  split_and!; [exact Hsame | |].
  - intros st. unfold succeeds. rewrite Hsame.
    destruct (call (transfer_custody tx i n why) s) as [[u|r] s'].
    + split; eauto.
    + split; by intros (? & ? & ?).
  - intros He Ht Hc Hn Hs Hr Hw Hroom ev.
    assert (Hpass : first_failure (transfer_checks tx s i n why) = None).
    { apply transfer_checks_pass. unfold CUSTODY_CAPACITY.
      split_and!; try done; lia. }
    split.
    + exists (transfer_effect tx s i n why). split_and!.
      * rewrite (call_guarded _ _ _ _ _ (transfer_custody_body tx i n why s)).
        unfold guarded. by rewrite Hpass.
      * change (transfer_effect tx s i n why)
          with (effect_of tx s (Call_transfer_custody i n why)).
        rewrite history_at_effect. rewrite decide_True by done.
        unfold ev. by rewrite Hc.
      * change (transfer_effect tx s i n why)
          with (effect_of tx s (Call_transfer_custody i n why)).
        rewrite evidence_at_effect. by rewrite decide_True.
      * change (transfer_effect tx s i n why)
          with (effect_of tx s (Call_transfer_custody i n why)).
        rewrite evidence_at_effect. by rewrite decide_True.
    + intros st. exists (transfer_effect tx (restatus st i s) i n why).
      assert (Hrec : evidence_at (restatus st i s) i
                     = with_status st (evidence_at s i)).
      { unfold restatus. rewrite evidence_at_set_evidence.
        by rewrite decide_True. }
      split_and!.
      * rewrite (call_guarded _ _ _ _ _
                   (transfer_custody_body tx i n why (restatus st i s))).
        unfold guarded. by rewrite transfer_checks_restatus, Hpass.
      * change (transfer_effect tx ?x i n why)
          with (effect_of tx x (Call_transfer_custody i n why)).
        rewrite history_at_effect. rewrite decide_True by done.
        rewrite Hrec. simpl. unfold ev. by rewrite Hc.
      * change (transfer_effect tx ?x i n why)
          with (effect_of tx x (Call_transfer_custody i n why)).
        rewrite evidence_at_effect. by rewrite decide_True.
      * change (transfer_effect tx ?x i n why)
          with (effect_of tx x (Call_transfer_custody i n why)).
        rewrite evidence_at_effect. rewrite decide_True by done.
        by rewrite Hrec.
Qed.

Lemma transfer_custody_ignores_status_witness :
  evidence_exists archived_state 1 = true /\
  status (evidence_at archived_state 1) = Status_Archived /\
  exists s',
    call (transfer_custody (mkEnv 1 104) 1 2 "to the lab") archived_state
      = (Success tt, s') /\
    current_custodian (evidence_at s' 1) = 2.
Proof.
  assert (He : evidence_exists archived_state 1 = true) by (by vm_compute).
  assert (Hst : status (evidence_at archived_state 1) = Status_Archived)
    by (by vm_compute).
  split; [exact He|]. split; [exact Hst|].
  destruct (transfer_custody_ignores_status (mkEnv 1 104) archived_state 1 2
              "to the lab") as (_ & _ & Hok).
  destruct (Hok He (or_introl Hst)) as ((s' & Hcall & _ & Hcust & _) & _);
    try by vm_compute.
  exists s'. split; [exact Hcall | exact Hcust].
Defined.

Lemma full_archived_state_facts :
  evidence_exists full_archived_state 1 = true /\
  current_custodian (evidence_at full_archived_state 1) = 2 /\
  status (evidence_at full_archived_state 1) = Status_Archived /\
  roles_at full_archived_state 1 = 15 /\
  length (history_at full_archived_state 1) = 1000%nat.
Proof. vm_compute. by repeat split. Qed.

(** The bounds bind Archived evidence as they bind any other. Evidence
    1 is Archived and its history holds 1000 events: the transfer by
    its custodian to an enrolled, different, non-null principal with a
    reason is rejected at the append. *)
Example archived_evidence_with_full_history :
  reachable full_archived_state /\
  call (transfer_custody (mkEnv 2 5000) 1 1 "handoff") full_archived_state
    = (Reverted DynArray_full, full_archived_state).
Proof.
  destruct full_archived_state_facts as (He & Hc & Hst & Hr & Hl).
  split.
  - exact (reachable_run _ _ full_history_state_reachable).
  - exact (full_history_transfer_reverts _ He Hc Hr Hl).
Qed.

(** ** Rejected calls *)

Lemma bind_ret_guarded {A B} (m : M A) (f : A -> B) checks (a : A) after s :
  m s = guarded checks a after s ->
  (x <- m ;; ret (f x)) s = guarded checks (f a) after s.
Proof.
  unfold bind, ret, guarded. intros ->. by destruct (first_failure checks).
Qed.

(** The body of a call in guard-and-effect form; for a registration,
    where the history of the next id has room. *)
Lemma dispatch_body tx c s :
  match c with
  | Call_register_evidence _ _ _ _ =>
      Z.of_nat (length (history_at s (evidence_counter s + 1)))
      < CUSTODY_CAPACITY
  | _ => True
  end ->
  dispatch tx c s =
  guarded (checks_of tx s c) (returned_by s c) (effect_of tx s c) s.
Proof.
  destruct c; simpl; intros Hroom.
  - apply (bind_ret_guarded _ (fun _ => None) _ tt), grant_role_body.
  - apply (bind_ret_guarded _ (fun _ => None) _ tt), revoke_role_body.
  - by apply (bind_ret_guarded _ Some), register_evidence_body.
  - apply (bind_ret_guarded _ (fun _ => None) _ tt), transfer_custody_body.
  - apply (bind_ret_guarded _ (fun _ => None) _ tt), set_status_body.
  - apply (bind_ret_guarded _ (fun _ => None) _ tt),
      add_file_to_evidence_body.
Qed.

(** C8: a call of which some precondition fails is rejected with the
    failure of the first precondition that fails, in the order the
    call checks them, and the ledger after the call is the ledger
    before it: roles, counter, records, digests, histories, files and
    event log. The bounds of the string arguments are the first
    preconditions: an argument longer than its type allows is rejected
    at decoding, a ValidationError, whatever else holds. In a reachable
    state nothing is even written and undone: every check of the body
    precedes its first write. *)
Theorem rejected_call_changes_nothing tx c s :
  (forall b r,
     (b, r) ∈ checks_of tx s c -> b = false ->
     exists r', first_failure (checks_of tx s c) = Some r' /\
                transact tx c s = (Reverted r', s) /\
                step s (tx, c) = s) /\
  (forall r s',
     transact tx c s = (Reverted r, s') ->
     s' = s /\ (false, r) ∈ checks_of tx s c) /\
  (args_fit c = false ->
   transact tx c s = (Reverted Argument_out_of_bounds, s) /\
   error_kind Argument_out_of_bounds = ValidationError) /\
  (forall r s',
     transact tx c s = (Reverted r, s') ->
     r = Argument_out_of_bounds -> args_fit c = false) /\
  (reachable s ->
   forall r s', dispatch tx c s = (Reverted r, s') -> s' = s).
Proof.
  split_and!.
  - intros b r Hin Hb.
    destruct (first_failure_of_false _ _ _ Hin Hb) as [r' Hf].
    exists r'. split; [done|].
    rewrite step_guarded, transact_guarded. unfold guarded.
    by rewrite Hf.
  - intros r s'. rewrite transact_guarded. intros Hrej.
    apply guarded_reverted in Hrej as [Hf ->].
    split; [done|]. by apply first_failure_Some.
  - intros Hbig. split; [|done].
    rewrite transact_guarded. unfold guarded.
    destruct c; simpl in Hbig; try done; cbn [checks_of];
      unfold register_checks, transfer_checks, add_file_checks;
      cbn [first_failure];
      by repeat case_bool_decide.
  - intros r s'. rewrite transact_guarded. intros Hrej ->.
    apply guarded_reverted in Hrej as [Hf _].
    apply first_failure_Some in Hf.
    destruct c; cbn [checks_of] in Hf;
      unfold role_checks, register_checks, transfer_checks, status_checks,
        add_file_checks in Hf;
      repeat (apply elem_of_cons in Hf as [Hf|Hf]; [try discriminate Hf|]);
      try (by apply elem_of_nil in Hf);
      simpl; injection Hf as Hf; by rewrite <- Hf, ?andb_false_r.
  - intros Hr r s' Hrej. apply reachable_inv in Hr.
    rewrite dispatch_body in Hrej.
    + by apply guarded_reverted in Hrej as [_ ->].
    + destruct c; try done.
      pose proof (inv_counter s Hr) as [Hc0 _].
      destruct (fresh_id_unused s (evidence_counter s + 1) Hr ltac:(lia))
        as [_ ->].
      unfold CUSTODY_CAPACITY. simpl. lia.
Qed.

(** For instance: the sample ledger rejects a registration by a
    principal without the POLICE role and stays as it is. *)
Example rejected_registration :
  transact (mkEnv 5 102) (Call_register_evidence 8 "QmX" "d" "C") sample_state
  = (Reverted Unauthorized_role, sample_state).
Proof. by vm_compute. Qed.

(** Where the body does write before it fails, the call still leaves
    nothing behind: on [crowded_state] the body of a registration stops
    at the append with the counter already advanced, and the call
    returns the storage it started from. *)
Example rollback_of_partial_registration :
  let tx := mkEnv 1 100 in
  let body := register_evidence tx 7 "QmCID" "desc" "CASE-1" crowded_state in
  body.1 = Reverted DynArray_full /\
  evidence_counter body.2 = 1 /\
  call (register_evidence tx 7 "QmCID" "desc" "CASE-1") crowded_state
    = (Reverted DynArray_full, crowded_state).
Proof. by vm_compute. Qed.

(** ** The scenarios of the design document *)

(** Scenario A: after POLICE is granted to principal 3, its first
    registration returns id 1, Collected, in its custody. *)
Example scenario_A :
  let s0 := step (init 1) (mkEnv 1 10, Call_grant_role 3 ROLE_POLICE) in
  let r := call (register_evidence (mkEnv 3 11) 77 "L1" "desc" "CASE-1") s0 in
  r.1 = Success 1 /\
  status (evidence_at r.2 1) = Status_Collected /\
  current_custodian (evidence_at r.2 1) = 3.
Proof. by vm_compute. Qed.

(** Scenario B: the custodian hands evidence 1 to the LAB principal;
    the history has two entries. *)
Example scenario_B :
  let r := call (transfer_custody (mkEnv 1 102) 1 2 "handoff") sample_state in
  r.1 = Success tt /\
  current_custodian (evidence_at r.2 1) = 2 /\
  length (history_at r.2 1) = 2%nat.
Proof. by vm_compute. Qed.

(** Scenario C: Collected to InAnalysis to Archived, and no way back. *)
Example scenario_C :
  status (evidence_at archived_state 1) = Status_Archived /\
  call (set_status (mkEnv 2 104) 1 Status_Collected) archived_state
    = (Reverted Cannot_transition_from_Archived, archived_state) /\
  error_kind Cannot_transition_from_Archived = InvalidTransitionError.
Proof. by vm_compute. Qed.

(** Scenario D: the same digest again is a DuplicateError and the count
    stays at 1. *)
Example scenario_D :
  let r := call (register_evidence (mkEnv 1 102) 7 "L2" "other" "CASE-2")
                sample_state in
  r.1 = Reverted Evidence_already_registered /\
  error_kind Evidence_already_registered = DuplicateError /\
  evidence_counter r.2 = 1.
Proof. by vm_compute. Qed.

(** * Further properties of the contract *)

(** ** Traces *)

Lemma run_app_trace s t1 t2 : run s (t1 ++ t2) = run (run s t1) t2.
Proof. unfold run. by rewrite foldl_app. Qed.

Lemma run_snoc s trace x : run s (trace ++ [x]) = step (run s trace) x.
Proof. unfold run. by rewrite foldl_app. Qed.

Lemma run_preserves (P : State -> Prop) :
  (forall s x, P s -> P (step s x)) ->
  forall trace s, P s -> P (run s trace).
Proof.
  intros Hstep trace. induction trace as [|x rest IH]; simpl; intros s Hs;
    [done|].
  by apply IH, Hstep.
Qed.

Lemma reachable_is_run s :
  reachable s -> exists deployer trace, s = run (init deployer) trace.
Proof.
  induction 1 as [d|s tx c _ (d & trace & ->)].
  - by exists d, [].
  - exists d, (trace ++ [(tx, c)]). by rewrite run_snoc.
Qed.

Lemma roles_at_effect tx s c b :
  roles_at (effect_of tx s c) b =
  match c with
  | Call_grant_role a r =>
      if decide (a = b) then Z.lor (roles_at s a) r else roles_at s b
  | Call_revoke_role a r =>
      if decide (a = b) then Z.land (roles_at s a) (uint256_not r)
      else roles_at s b
  | _ => roles_at s b
  end.
Proof.
  destruct c; simpl; try done.
  - exact (roles_at_set_roles _ _ s b).
  - exact (roles_at_set_roles _ _ s b).
Qed.

Lemma logs_effect tx s c :
  logs (effect_of tx s c) = logs s ++ [event_of tx s c].
Proof. by destruct c. Qed.

Lemma roles_at_init d a :
  roles_at (init d) a = if decide (d = a) then ALL_ROLES else 0.
Proof.
  unfold roles_at, init; simpl. rewrite lookup_singleton.
  by destruct (decide (d = a)).
Qed.

(** ** Role registry, continued *)

Lemma has_role_call a r s :
  call (has_role a r) s = (Success (holds_role s a r), s).
Proof. reflexivity. Qed.

Ltac role_cases H :=
  destruct H as [-> | [-> | [-> | ->]]].

Ltac small_mask m H :=
  assert (m = 0 \/ m = 1 \/ m = 2 \/ m = 3 \/ m = 4 \/ m = 5 \/ m = 6 \/
          m = 7 \/ m = 8 \/ m = 9 \/ m = 10 \/ m = 11 \/ m = 12 \/ m = 13 \/
          m = 14 \/ m = 15) as Hmask by lia;
  clear H;
  repeat (destruct Hmask as [-> | Hmask]); [..|subst m].

Lemma mask_grant_bound m r :
  0 <= m <= 15 -> is_role r -> 0 <= Z.lor m r <= 15.
Proof. intros Hm Hr. role_cases Hr; small_mask m Hm; by vm_compute. Qed.

Lemma mask_revoke_bound m r :
  0 <= m <= 15 -> is_role r -> 0 <= Z.land m (uint256_not r) <= 15.
Proof. intros Hm Hr. role_cases Hr; small_mask m Hm; by vm_compute. Qed.

Lemma mask_grant_revoke m r :
  0 <= m <= 15 -> is_role r -> Z.land m r = 0 ->
  Z.land (Z.lor m r) (uint256_not r) = m.
Proof.
  intros Hm Hr. role_cases Hr; small_mask m Hm; by vm_compute.
Qed.

Lemma mask_other_bit_grant m r r' :
  is_role r -> is_role r' -> r <> r' ->
  Z.land (Z.lor m r) r' = Z.land m r'.
Proof.
  intros Hr Hr' Hne. rewrite Z.land_lor_distr_l.
  replace (Z.land r r') with 0; [apply Z.lor_0_r|].
  role_cases Hr; role_cases Hr'; done.
Qed.

Lemma mask_other_bit_revoke m r r' :
  is_role r -> is_role r' -> r <> r' ->
  Z.land (Z.land m (uint256_not r)) r' = Z.land m r'.
Proof.
  intros Hr Hr' Hne. rewrite <- Z.land_assoc.
  replace (Z.land (uint256_not r) r') with r'; [done|].
  role_cases Hr; role_cases Hr'; done.
Qed.

Lemma mask_nonzero_role m :
  0 <= m <= 15 ->
  m <> 0 <-> exists r, is_role r /\ Z.land m r <> 0.
Proof.
  intros Hm. split.
  - intros Hnz. small_mask m Hm; try done.
    all: first [ by (exists ROLE_ADMIN; split; [by left | by vm_compute])
               | by (exists ROLE_POLICE; split; [right; by left | by vm_compute])
               | by (exists ROLE_LAB; split; [right; right; by left | by vm_compute])
               | by (exists ROLE_JUDGE; split; [right; right; by right | by vm_compute]) ].
  - intros (r & _ & Hr) ->. by rewrite Z.land_0_l in Hr.
Qed.

Lemma roles_bounded s a : reachable s -> 0 <= roles_at s a <= 15.
Proof.
  intros Hr. revert a. induction Hr as [d|s tx c Hr IH]; intros a.
  - rewrite roles_at_init. case_decide; by vm_compute.
  - destruct (step_cases s tx c) as [(r & _ & ->)|[G ->]]; [done|].
    rewrite roles_at_effect. destruct c; try done.
    + case_decide; [|done]. apply mask_grant_bound; [done|].
      cbn [checks_of] in G. by apply role_checks_pass in G as (_ & ? & _).
    + case_decide; [|done]. apply mask_revoke_bound; [done|].
      cbn [checks_of] in G. by apply role_checks_pass in G as (_ & ? & _).
Qed.

(** X1: in every reachable state a principal's role mask is made of
    the four role bits only; so the mask is non-zero, which is what
    [transfer_custody] asks of a new custodian, exactly when
    [has_role] answers true for one of the four roles. *)
Theorem role_masks_are_role_sets s a :
  reachable s ->
  0 <= roles_at s a <= 15 /\
  (roles_at s a <> 0 <->
   exists r, is_role r /\ call (has_role a r) s = (Success true, s)).
Proof.
  intros Hr. pose proof (roles_bounded s a Hr) as Hb. split; [done|].
  rewrite (mask_nonzero_role _ Hb). split.
  - intros (r & Hrole & Hbit). exists r. split; [done|].
    rewrite has_role_call. unfold holds_role.
    by rewrite bool_decide_eq_true_2.
  - intros (r & Hrole & Hcall). exists r. split; [done|].
    rewrite has_role_call in Hcall. injection Hcall as Hh.
    unfold holds_role in Hh. by apply bool_decide_eq_true in Hh.
Qed.

Lemma role_masks_are_role_sets_witness :
  reachable sample_state /\ 0 <= roles_at sample_state 2 <= 15.
Proof.
  split; [exact sample_state_reachable|].
  exact (proj1 (role_masks_are_role_sets sample_state 2
                  sample_state_reachable)).
Defined.

(** X2: role bits are independent. A successful grant or revoke of one
    role for one principal changes no answer of [has_role] about
    another principal or about another of the four roles. *)
Theorem role_bits_are_independent tx s a r u s' b r' :
  call (grant_role tx a r) s = (Success u, s') \/
  call (revoke_role tx a r) s = (Success u, s') ->
  is_role r' -> b <> a \/ r' <> r ->
  (call (has_role b r') s').1 = (call (has_role b r') s).1.
Proof.
  intros Hcall Hr' Hother. rewrite !has_role_call. simpl. f_equal.
  unfold holds_role.
  destruct Hcall as [Hcall|Hcall].
  - apply (call_success _ _ _ _ _ _ _ (grant_role_body tx a r s))
      in Hcall as (Hpass & _ & ->).
    apply role_checks_pass in Hpass as (_ & Hr & _).
    change (grant_role_effect tx s a r)
      with (effect_of tx s (Call_grant_role a r)).
    rewrite roles_at_effect. case_decide; [subst b|done].
    destruct Hother as [?|Hne]; [done|].
    by rewrite mask_other_bit_grant.
  - apply (call_success _ _ _ _ _ _ _ (revoke_role_body tx a r s))
      in Hcall as (Hpass & _ & ->).
    apply role_checks_pass in Hpass as (_ & Hr & _).
    change (revoke_role_effect tx s a r)
      with (effect_of tx s (Call_revoke_role a r)).
    rewrite roles_at_effect. case_decide; [subst b|done].
    destruct Hother as [?|Hne]; [done|].
    by rewrite mask_other_bit_revoke.
Qed.

Lemma role_bits_are_independent_witness :
  let r := call (revoke_role (mkEnv 1 102) 1 ROLE_POLICE) sample_state in
  (call (has_role 1 ROLE_LAB) r.2).1 = Success true.
Proof.
  intros r.
  rewrite (role_bits_are_independent (mkEnv 1 102) sample_state 1 ROLE_POLICE
             tt r.2 1 ROLE_LAB).
  - by vm_compute.
  - right. by vm_compute.
  - right. right. by left.
  - right. discriminate.
Defined.

(** X3: granting a role the principal did not hold and revoking it
    again gives back the role masks the ledger started with. *)
Theorem grant_then_revoke_restores_masks tx tx' s a r :
  reachable s ->
  msg_sender tx = admin s -> msg_sender tx' = admin s ->
  a <> empty_address -> is_role r ->
  call (has_role a r) s = (Success false, s) ->
  forall b,
    roles_at (run s [(tx, Call_grant_role a r); (tx', Call_revoke_role a r)]) b
    = roles_at s b.
Proof.
  intros Hr Ha Ha' Hn Hrole Hno b.
  rewrite has_role_call in Hno. injection Hno as Hno.
  unfold holds_role in Hno. apply bool_decide_eq_false in Hno.
  assert (Hbit : Z.land (roles_at s a) r = 0).
  { destruct (decide (Z.land (roles_at s a) r = 0)); [done|]. by destruct Hno. }
  simpl.
  assert (E1 : step s (tx, Call_grant_role a r)
               = effect_of tx s (Call_grant_role a r)).
  { rewrite step_guarded.
    assert (first_failure (checks_of tx s (Call_grant_role a r)) = None)
      as -> by (by apply role_checks_pass). done. }
  rewrite E1.
  set (s1 := effect_of tx s (Call_grant_role a r)).
  assert (E2 : step s1 (tx', Call_revoke_role a r)
               = effect_of tx' s1 (Call_revoke_role a r)).
  { rewrite step_guarded.
    assert (first_failure (checks_of tx' s1 (Call_revoke_role a r)) = None)
      as ->; [|done].
    apply role_checks_pass. unfold s1. by rewrite admin_effect. }
  rewrite E2. rewrite roles_at_effect. unfold s1. rewrite !roles_at_effect.
  case_decide; [subst b|done].
  rewrite decide_True by done.
  apply mask_grant_revoke; [by apply roles_bounded|done|done].
Qed.

Lemma grant_then_revoke_restores_masks_witness :
  roles_at (run sample_state [(mkEnv 1 102, Call_grant_role 2 ROLE_JUDGE);
                              (mkEnv 1 103, Call_revoke_role 2 ROLE_JUDGE)]) 2
  = roles_at sample_state 2.
Proof.
  apply (grant_then_revoke_restores_masks (mkEnv 1 102) (mkEnv 1 103)
           sample_state 2 ROLE_JUDGE sample_state_reachable);
    try (by vm_compute).
  right. right. by right.
Defined.

(** X4: the admin is the deployer for good: no call rewrites [admin],
    so after any sequence of calls every grant or revoke by anyone but
    the deployer is turned away with "Only admin". *)
Theorem only_the_deployer_manages_roles d trace :
  admin (run (init d) trace) = d /\
  forall tx a r,
    msg_sender tx <> d ->
    call (grant_role tx a r) (run (init d) trace)
      = (Reverted Only_admin, run (init d) trace) /\
    call (revoke_role tx a r) (run (init d) trace)
      = (Reverted Only_admin, run (init d) trace).
Proof.
  assert (Hadmin : admin (run (init d) trace) = d).
  { apply (run_preserves (fun s => admin s = d)); [|done].
    intros s [tx c] Hs.
    destruct (step_cases s tx c) as [(r & _ & ->)|[G ->]]; [done|].
    by rewrite admin_effect. }
  split; [done|]. intros tx a r Hne. split.
  - eapply call_reverted; [apply grant_role_body|].
    apply role_checks_not_admin. by rewrite Hadmin.
  - eapply call_reverted; [apply revoke_role_body|].
    apply role_checks_not_admin. by rewrite Hadmin.
Qed.

(** ** Principals in custody *)

Lemma holds_role_nonzero s a r : holds_role s a r = true -> roles_at s a <> 0.
Proof.
  unfold holds_role. intros H%bool_decide_eq_true Hz. apply H.
  by rewrite Hz, Z.land_0_l.
Qed.

Lemma no_null_principal_step s x :
  (roles_at s empty_address = 0 /\
   (forall i, evidence_exists s i = true ->
      current_custodian (evidence_at s i) <> empty_address /\
      creator (evidence_at s i) <> empty_address) /\
   (forall i ev, ev ∈ history_at s i -> to_address ev <> empty_address)) ->
  let s' := step s x in
  roles_at s' empty_address = 0 /\
  (forall i, evidence_exists s' i = true ->
     current_custodian (evidence_at s' i) <> empty_address /\
     creator (evidence_at s' i) <> empty_address) /\
  (forall i ev, ev ∈ history_at s' i -> to_address ev <> empty_address).
Proof.
  intros (Hz & He & Hh) s'. unfold s'. destruct x as [tx c].
  destruct (step_cases s tx c) as [(r & _ & ->)|[G ->]]; [done|].
  unfold evidence_exists in *.
  split_and!.
  - rewrite roles_at_effect. destruct c; try done; cbn [checks_of] in G;
      apply role_checks_pass in G as (_ & _ & Hn); by rewrite decide_False.
  - intros i. rewrite evidence_at_effect. destruct c; try apply He.
    + cbn [checks_of] in G. apply register_checks_pass in G as (Hp & _).
      apply holds_role_nonzero in Hp.
      case_decide; [|apply He]. simpl. intros _.
      assert (msg_sender tx <> empty_address) by (intros E; by rewrite E in Hp).
      done.
    + cbn [checks_of] in G. apply transfer_checks_pass in G
        as (Hex & _ & Hn & _).
      case_decide; [subst i|apply He]. simpl. intros _.
      split; [done|]. by apply He.
    + case_decide; [subst i|apply He]. simpl. apply He.
  - intros i ev. rewrite history_at_effect. destruct c; try apply Hh.
    + cbn [checks_of] in G. apply register_checks_pass in G as (Hp & _).
      apply holds_role_nonzero in Hp.
      case_decide; [|apply Hh].
      rewrite elem_of_app, list_elem_of_singleton. intros [Hin| ->].
      * by eapply Hh.
      * simpl. intros E. by rewrite E in Hp.
    + cbn [checks_of] in G. apply transfer_checks_pass in G
        as (_ & _ & Hn & _).
      case_decide; [subst i|apply Hh].
      rewrite elem_of_app, list_elem_of_singleton. intros [Hin| ->].
      * by eapply Hh.
      * done.
Qed.

(** X5: when the deployer is not the null address, the null address
    never holds a role, and custody never rests with it: every
    existing evidence has a non-null creator and current custodian,
    and every custody event hands over to a non-null principal. *)
Theorem custody_never_rests_with_null d trace :
  d <> empty_address ->
  let s := run (init d) trace in
  roles_at s empty_address = 0 /\
  (forall i, evidence_exists s i = true ->
     current_custodian (evidence_at s i) <> empty_address /\
     creator (evidence_at s i) <> empty_address) /\
  (forall i ev, ev ∈ history_at s i -> to_address ev <> empty_address).
Proof.
  intros Hd s. unfold s.
  apply (run_preserves (fun s =>
    roles_at s empty_address = 0 /\
    (forall i, evidence_exists s i = true ->
       current_custodian (evidence_at s i) <> empty_address /\
       creator (evidence_at s i) <> empty_address) /\
    (forall i ev, ev ∈ history_at s i -> to_address ev <> empty_address))).
  - intros s0 x H0. by apply no_null_principal_step.
  - split_and!.
    + rewrite roles_at_init. by rewrite decide_False.
    + intros i. unfold evidence_exists, evidence_at, init; simpl.
      by rewrite lookup_empty.
    + intros i ev. unfold history_at, init; simpl. rewrite lookup_empty.
      simpl. by intros ?%elem_of_nil.
Qed.

Lemma custody_never_rests_with_null_witness :
  roles_at sample_state empty_address = 0.
Proof.
  apply (custody_never_rests_with_null 1 sample_trace). discriminate.
Defined.

(** ** Reads *)

Lemma view_call {A} (f : State -> A) i s :
  call (_evidence_exists i ;; load f) s =
  if evidence_exists s i then (Success (f s), s)
  else (Reverted Evidence_does_not_exist, s).
Proof.
  unfold call, _evidence_exists, bind, load, assert_, ret, raise,
    evidence_exists.
  by destruct (exists_ (evidence_at s i)).
Qed.

Lemma verify_integrity_call i h s :
  call (verify_integrity i h) s =
  if evidence_exists s i
  then (Success (bool_decide (file_hash (evidence_at s i) = h)), s)
  else (Reverted Evidence_does_not_exist, s).
Proof.
  unfold call, verify_integrity, _evidence_exists, bind, load, assert_, ret,
    raise, evidence_exists.
  by destruct (exists_ (evidence_at s i)).
Qed.

Lemma all_ids_exist s i :
  reachable s -> 1 <= i <= evidence_counter s -> evidence_exists s i = true.
Proof.
  intros Hr. revert i. induction Hr as [d|s tx c Hr IH]; intros i.
  - unfold init; simpl. lia.
  - destruct (step_cases s tx c) as [(r & _ & ->)|[G ->]]; [apply IH|].
    rewrite evidence_counter_effect. unfold evidence_exists in *.
    rewrite evidence_at_effect. destruct c; try apply IH.
    + intros Hi. case_decide; [done|]. apply IH. lia.
    + intros Hi. case_decide; [subst i|by apply IH]. simpl. by apply IH.
    + intros Hi. case_decide; [subst i|by apply IH]. simpl. by apply IH.
Qed.

Lemma exists_iff_in_range s i :
  reachable s ->
  evidence_exists s i = true <-> 1 <= i <= evidence_counter s.
Proof.
  intros Hr. split.
  - intros Hi. by destruct (inv_evidence s (reachable_inv s Hr) i Hi).
  - by apply all_ids_exist.
Qed.

(** X6: evidence ids are exactly 1 up to [get_evidence_count], without
    gaps. Every read that takes an evidence id ([get_evidence],
    [get_custody_history], [get_current_custodian],
    [get_evidence_files], [verify_integrity]) answers from storage for
    these ids and fails with "Evidence does not exist" for every other
    id; no read changes the ledger. *)
Theorem reads_answer_exactly_on_assigned_ids s i :
  reachable s ->
  call get_evidence_count s = (Success (evidence_counter s), s) /\
  (1 <= i <= evidence_counter s ->
   call (get_evidence i) s = (Success (evidence_at s i), s) /\
   call (get_custody_history i) s = (Success (history_at s i), s) /\
   call (get_current_custodian i) s
     = (Success (current_custodian (evidence_at s i)), s) /\
   call (get_evidence_files i) s = (Success (files_at s i), s) /\
   forall h,
     call (verify_integrity i h) s
     = (Success (bool_decide (file_hash (evidence_at s i) = h)), s)) /\
  (~ 1 <= i <= evidence_counter s ->
   call (get_evidence i) s = (Reverted Evidence_does_not_exist, s) /\
   call (get_custody_history i) s = (Reverted Evidence_does_not_exist, s) /\
   call (get_current_custodian i) s = (Reverted Evidence_does_not_exist, s) /\
   call (get_evidence_files i) s = (Reverted Evidence_does_not_exist, s) /\
   (forall h,
      call (verify_integrity i h) s = (Reverted Evidence_does_not_exist, s)) /\
   error_kind Evidence_does_not_exist = NotFoundError).
Proof.
  intros Hr. split; [done|].
  pose proof (exists_iff_in_range s i Hr) as Hrange.
  unfold get_evidence, get_custody_history, get_current_custodian,
    get_evidence_files.
  split.
  - intros Hi. apply Hrange in Hi.
    rewrite !view_call, Hi. split_and!; try done.
    intros h. by rewrite verify_integrity_call, Hi.
  - intros Hi.
    assert (Hno : evidence_exists s i = false).
    { apply not_true_is_false. by rewrite Hrange. }
    rewrite !view_call, Hno. split_and!; try done.
    intros h. by rewrite verify_integrity_call, Hno.
Qed.

Lemma reads_answer_exactly_on_assigned_ids_witness :
  reachable sample_state /\
  call (get_current_custodian 1) sample_state = (Success 1, sample_state) /\
  call (get_evidence 2) sample_state
    = (Reverted Evidence_does_not_exist, sample_state).
Proof.
  split; [exact sample_state_reachable|].
  destruct (reads_answer_exactly_on_assigned_ids sample_state 1
              sample_state_reachable) as (_ & Hin & _).
  destruct (reads_answer_exactly_on_assigned_ids sample_state 2
              sample_state_reachable) as (_ & _ & Hout).
  split.
  - destruct Hin as (_ & _ & Hc & _); [by vm_compute|]. exact Hc.
  - destruct Hout as (Hg & _); [|exact Hg].
    intros [_ H]. vm_compute in H. exact (H eq_refl).
Defined.

(** ** Digests *)

Lemma digests_inv s :
  reachable s ->
  (forall i, evidence_exists s i = true ->
     registered_at s (file_hash (evidence_at s i)) = true /\
     file_hash (evidence_at s i) <> empty_bytes32) /\
  (forall h, registered_at s h = true ->
     exists i, evidence_exists s i = true /\ file_hash (evidence_at s i) = h) /\
  (forall i j, evidence_exists s i = true -> evidence_exists s j = true ->
     file_hash (evidence_at s i) = file_hash (evidence_at s j) -> i = j).
Proof.
  induction 1 as [d|s tx c Hr (Hreg & Hsrc & Huniq)].
  - unfold evidence_exists, evidence_at, registered_at, init; simpl.
    split_and!; intros *; by rewrite lookup_empty.
  - destruct (step_cases s tx c) as [(r & _ & ->)|[G ->]]; [done|].
    pose proof (reachable_inv s Hr) as Hinv.
    unfold evidence_exists in *.
    destruct c; cbn [checks_of] in G.
    1,2,6: split_and!; intros *; rewrite ?evidence_at_effect,
             ?registered_at_effect; eauto.
    + (* register_evidence *)
      apply register_checks_pass in G as (_ & Hh & _ & _ & _ & Hnew & _).
      assert (Hold : forall i, exists_ (evidence_at s i) = true ->
                               evidence_counter s + 1 <> i).
      { intros i Hi <-.
        destruct (inv_evidence s Hinv _ Hi) as ([_ ?] & _). lia. }
      split_and!.
      * intros i. rewrite evidence_at_effect, registered_at_effect.
        case_decide; simpl.
        -- intros _. by rewrite decide_True.
        -- intros Hi. destruct (Hreg i Hi) as [Hri Hnz].
           split; [|done]. by case_decide.
      * intros k. rewrite registered_at_effect. case_decide.
        -- subst k. intros _. exists (evidence_counter s + 1).
           rewrite evidence_at_effect. by rewrite decide_True.
        -- intros Hk. destruct (Hsrc k Hk) as (i & Hi & Hhash).
           exists i. rewrite evidence_at_effect.
           rewrite decide_False by by apply Hold. done.
      * intros i j. rewrite !evidence_at_effect.
        repeat case_decide; simpl; try congruence.
        -- intros _ Hj E. destruct (Hreg j Hj) as [Hrj _].
           rewrite <- E in Hrj. congruence.
        -- intros Hi _ E. destruct (Hreg i Hi) as [Hri _].
           rewrite E in Hri. congruence.
        -- apply Huniq.
    + (* transfer_custody *)
      split_and!.
      * intros i. rewrite evidence_at_effect, registered_at_effect.
        case_decide; [subst i|apply Hreg]. simpl. apply Hreg.
      * intros k. rewrite registered_at_effect. intros Hk.
        destruct (Hsrc k Hk) as (i & Hi & Hhash). exists i.
        rewrite evidence_at_effect. case_decide; [subst i|done]. done.
      * intros i j. rewrite !evidence_at_effect.
        repeat case_decide; subst; simpl; apply Huniq.
    + (* set_status *)
      split_and!.
      * intros i. rewrite evidence_at_effect, registered_at_effect.
        case_decide; [subst i|apply Hreg]. simpl. apply Hreg.
      * intros k. rewrite registered_at_effect. intros Hk.
        destruct (Hsrc k Hk) as (i & Hi & Hhash). exists i.
        rewrite evidence_at_effect. case_decide; [subst i|done]. done.
      * intros i j. rewrite !evidence_at_effect.
        repeat case_decide; subst; simpl; apply Huniq.
Qed.

(** X7: the registered digests are exactly the digests of the existing
    evidence, none of them zero, and no two evidence ids carry the same
    digest. *)
Theorem digests_identify_evidence s :
  reachable s ->
  (forall h, registered_at s h = true <->
     exists i, evidence_exists s i = true /\ file_hash (evidence_at s i) = h) /\
  (forall i j, evidence_exists s i = true -> evidence_exists s j = true ->
     file_hash (evidence_at s i) = file_hash (evidence_at s j) -> i = j) /\
  (forall i, evidence_exists s i = true ->
     file_hash (evidence_at s i) <> empty_bytes32).
Proof.
  intros Hr. destruct (digests_inv s Hr) as (Hreg & Hsrc & Huniq).
  split_and!.
  - intros h. split; [apply Hsrc|].
    intros (i & Hi & <-). by apply Hreg.
  - exact Huniq.
  - intros i Hi. by apply Hreg.
Qed.

Lemma digests_identify_evidence_witness :
  reachable sample_state /\
  (registered_at sample_state 7 = true <->
   exists i, evidence_exists sample_state i = true /\
             file_hash (evidence_at sample_state i) = 7).
Proof.
  split; [exact sample_state_reachable|].
  exact (proj1 (digests_identify_evidence sample_state
                  sample_state_reachable) 7).
Defined.

(** X8: [verify_integrity] keeps its answer. For an existing evidence
    id it returns, after any further calls, whether the given digest is
    the one the evidence was registered with; and a digest verifies
    against at most one evidence id. *)
Theorem verify_integrity_is_stable s i :
  reachable s -> evidence_exists s i = true ->
  (forall trace h,
     call (verify_integrity i h) (run s trace)
     = (Success (bool_decide (file_hash (evidence_at s i) = h)),
        run s trace)) /\
  (forall trace j h,
     call (verify_integrity i h) (run s trace) = (Success true, run s trace) ->
     call (verify_integrity j h) (run s trace) = (Success true, run s trace) ->
     i = j).
Proof.
  intros Hr Hi. pose proof (reachable_inv s Hr) as Hinv.
  assert (Hanswer : forall trace h,
     call (verify_integrity i h) (run s trace)
     = (Success (bool_decide (file_hash (evidence_at s i) = h)),
        run s trace)).
  { intros trace h. rewrite verify_integrity_call.
    rewrite (run_exists s trace i Hinv Hi).
    destruct (run_same_identity s trace i Hinv Hi) as (_ & -> & _). done. }
  split; [exact Hanswer|].
  intros trace j h Hvi Hvj.
  pose proof (reachable_run s trace Hr) as Hr'.
  rewrite verify_integrity_call in Hvi, Hvj.
  destruct (evidence_exists (run s trace) i) eqn:Hei; [|done].
  destruct (evidence_exists (run s trace) j) eqn:Hej; [|done].
  injection Hvi as Hvi. injection Hvj as Hvj.
  apply bool_decide_eq_true in Hvi, Hvj.
  destruct (digests_inv _ Hr') as (_ & _ & Huniq).
  apply Huniq; congruence.
Qed.

Lemma verify_integrity_is_stable_witness :
  reachable sample_state /\ evidence_exists sample_state 1 = true /\
  call (verify_integrity 1 7) archived_state = (Success true, archived_state).
Proof.
  split; [exact sample_state_reachable|].
  assert (He : evidence_exists sample_state 1 = true) by (by vm_compute).
  split; [exact He|].
  exact (proj1 (verify_integrity_is_stable sample_state 1
                  sample_state_reachable He)
           [ (mkEnv 2 102, Call_set_status 1 Status_InAnalysis);
             (mkEnv 2 103, Call_set_status 1 Status_Archived) ] 7).
Defined.

(** ** File attachments *)

(** X9: [add_file_to_evidence] succeeds exactly when the evidence
    exists, the caller holds LAB, the digest is non-zero, the locator
    is non-empty and at most 100 bytes long, the file type is
    non-empty and at most 50 bytes long, and the evidence has fewer
    than 100 files. A locator or file type beyond the bound of its
    type is rejected before anything else is looked at. Neither the
    status of the evidence, nor who holds it, nor whether the digest
    is already known plays a part. On success the file, stamped with
    caller and time, is appended to the files of that evidence and
    nothing else in storage changes. *)
Theorem add_file_to_evidence_spec tx s i h cid ft :
  (succeeds (add_file_to_evidence tx i h cid ft) s <->
     evidence_exists s i = true /\
     holds_role s (msg_sender tx) ROLE_LAB = true /\
     h <> empty_bytes32 /\ 0 < len cid <= 100 /\ 0 < len ft <= 50 /\
     Z.of_nat (length (files_at s i)) < 100) /\
  (100 < len cid \/ 50 < len ft ->
   call (add_file_to_evidence tx i h cid ft) s
     = (Reverted Argument_out_of_bounds, s)) /\
  (forall u s',
     call (add_file_to_evidence tx i h cid ft) s = (Success u, s') ->
     files_at s' i =
       files_at s i ++
       [mkEvidenceFile h cid ft (msg_sender tx) (block_timestamp tx)] /\
     (forall j, j <> i -> files_at s' j = files_at s j) /\
     (forall j, evidence_at s' j = evidence_at s j /\
                history_at s' j = history_at s j) /\
     (forall k, registered_at s' k = registered_at s k) /\
     (forall a, roles_at s' a = roles_at s a) /\
     evidence_counter s' = evidence_counter s /\ admin s' = admin s).
Proof.
  pose proof (add_file_to_evidence_body tx i h cid ft s) as Hbody.
  split_and!.
  - rewrite (succeeds_iff _ _ _ _ _ Hbody), add_file_checks_pass.
    unfold FILES_CAPACITY. intuition lia.
  - intros Hbig. eapply call_reverted; [exact Hbody|].
    unfold add_file_checks; simpl.
    destruct (decide (len cid <= 100)) as [Hfit|Hno].
    + rewrite (bool_decide_eq_true_2 (len cid <= 100)) by done.
      by rewrite (bool_decide_eq_false_2 (len ft <= 50)) by lia.
    + by rewrite (bool_decide_eq_false_2 (len cid <= 100)) by done.
  - intros u s' Hcall.
    apply (call_success _ _ _ _ _ _ _ Hbody) in Hcall as (_ & _ & ->).
    change (add_file_effect tx s i h cid ft)
      with (effect_of tx s (Call_add_file_to_evidence i h cid ft)).
    split_and!.
    + rewrite files_at_effect. by rewrite decide_True.
    + intros j Hj. rewrite files_at_effect. by rewrite decide_False.
    + intros j. by rewrite evidence_at_effect, history_at_effect.
    + intros k. by rewrite registered_at_effect.
    + intros a. by rewrite roles_at_effect.
    + by rewrite evidence_counter_effect.
    + by rewrite admin_effect.
Qed.

(** ** Well-formed entries *)

(** X10: what the lists hold is well formed. Every custody event has a
    non-empty reason; every event after the first moves the evidence
    between two different principals; every attached file belongs to
    an existing evidence and has a non-zero digest and a non-empty
    locator and file type. *)
Theorem stored_entries_are_well_formed s :
  reachable s ->
  (forall i ev, ev ∈ history_at s i -> len (reason ev) > 0) /\
  (forall i k ev, history_at s i !! S k = Some ev ->
                  from_address ev <> to_address ev) /\
  (forall i f, f ∈ files_at s i ->
     evidence_exists s i = true /\ ef_file_hash f <> empty_bytes32 /\
     len (ef_ipfs_cid f) > 0 /\ len (file_type f) > 0).
Proof.
  induction 1 as [d|s tx c Hr (Hreason & Hmove & Hfile)].
  - unfold history_at, files_at, init; simpl.
    split_and!; intros i *; rewrite lookup_empty; simpl;
      first [by intros ?%elem_of_nil | done].
  - destruct (step_cases s tx c) as [(r & _ & ->)|[G ->]]; [done|].
    pose proof (reachable_inv s Hr) as Hinv.
    assert (Hkeep : forall i, evidence_exists s i = true ->
                      evidence_exists (effect_of tx s c) i = true).
    { intros i Hi. rewrite <- (step_exists s tx c i Hinv Hi).
      rewrite step_guarded. by rewrite G. }
    split_and!.
    + intros i ev. rewrite history_at_effect.
      destruct c; try apply Hreason; cbn [checks_of] in G.
      * case_decide; [|apply Hreason].
        rewrite elem_of_app, list_elem_of_singleton.
        intros [Hin| ->]; [by eapply Hreason|done].
      * apply transfer_checks_pass in G as (_ & _ & _ & Hw & _).
        case_decide; [subst i|apply Hreason].
        rewrite elem_of_app, list_elem_of_singleton.
        intros [Hin| ->]; [by eapply Hreason|done].
    + intros i k ev. rewrite history_at_effect.
      destruct c; try apply Hmove; cbn [checks_of] in G.
      * case_decide; [subst i|apply Hmove].
        pose proof (inv_counter s Hinv) as [Hc0 _].
        destruct (fresh_id_unused s (evidence_counter s + 1) Hinv ltac:(lia))
          as [_ ->]. done.
      * apply transfer_checks_pass in G as (_ & Hc & _ & _ & _ & Hself & _).
        case_decide; [subst i|apply Hmove].
        intros [Hold|[_ Hnew]]%lookup_app_Some; [by eapply Hmove|].
        destruct (S k - length (history_at s evidence_id))%nat;
          simpl in Hnew; [|done].
        injection Hnew as <-. simpl. congruence.
    + intros i f Hin.
      assert (Hcases : f ∈ files_at s i \/
                (evidence_exists s i = true /\
                 ef_file_hash f <> empty_bytes32 /\
                 len (ef_ipfs_cid f) > 0 /\ len (file_type f) > 0)).
      { rewrite files_at_effect in Hin.
        destruct c; try (by left); cbn [checks_of] in G.
        apply add_file_checks_pass in G as (He & _ & Hh & Hcid & Hft & _).
        case_decide; [subst i|by left].
        apply elem_of_app in Hin as [Hin|Hin%list_elem_of_singleton];
          [by left|right]. by subst f. }
      destruct Hcases as [Hold|(He & ?)].
      * destruct (Hfile i f Hold) as (He & ?). split; [by apply Hkeep|done].
      * split; [by apply Hkeep|done].
Qed.

Lemma stored_entries_are_well_formed_witness :
  reachable sample_state /\
  forall ev, ev ∈ history_at sample_state 1 -> len (reason ev) > 0.
Proof.
  split; [exact sample_state_reachable|].
  exact (proj1 (stored_entries_are_well_formed sample_state
                  sample_state_reachable) 1).
Defined.

(** X24: the strings in storage fit the types of their fields. Every
    record holds a locator of at most 100 bytes, a description of at
    most 500 and a case id of at most 50; every custody event a reason
    of at most 200 bytes; every attached file a locator of at most 100
    bytes and a file type of at most 50: what a call writes went
    through the decoding of its arguments. *)
Theorem stored_strings_fit_their_types s :
  reachable s ->
  (forall i, len (ipfs_cid (evidence_at s i)) <= 100 /\
             len (description (evidence_at s i)) <= 500 /\
             len (case_id (evidence_at s i)) <= 50) /\
  (forall i ev, ev ∈ history_at s i -> len (reason ev) <= 200) /\
  (forall i f, f ∈ files_at s i ->
     len (ef_ipfs_cid f) <= 100 /\ len (file_type f) <= 50).
Proof.
  induction 1 as [d|s tx c Hr (Hrec & Hreason & Hfile)].
  - unfold evidence_at, history_at, files_at, init; simpl.
    split_and!; intros i *; rewrite lookup_empty; simpl;
      first [by intros ?%elem_of_nil | by vm_compute].
  - destruct (step_cases s tx c) as [(r & _ & ->)|[G ->]]; [done|].
    split_and!.
    + intros i. rewrite evidence_at_effect.
      destruct c; try apply Hrec; cbn [checks_of] in G.
      * apply register_checks_pass in G as (_&_&_&_&_&_&_&_& ? & ? & ?).
        case_decide; [done|apply Hrec].
      * case_decide; [subst i; apply Hrec|apply Hrec].
      * case_decide; [subst i; apply Hrec|apply Hrec].
    + intros i ev. rewrite history_at_effect.
      destruct c; try apply Hreason; cbn [checks_of] in G.
      * case_decide; [|apply Hreason].
        rewrite elem_of_app, list_elem_of_singleton.
        intros [Hin| ->]; [by eapply Hreason|by vm_compute].
      * apply transfer_checks_pass in G as (_&_&_&_&_&_&_& Hfit).
        case_decide; [subst i|apply Hreason].
        rewrite elem_of_app, list_elem_of_singleton.
        intros [Hin| ->]; [by eapply Hreason|done].
    + intros i f. rewrite files_at_effect.
      destruct c; try apply Hfile; cbn [checks_of] in G.
      apply add_file_checks_pass in G as (_&_&_&_&_&_& ? & ?).
      case_decide; [subst i|apply Hfile].
      rewrite elem_of_app, list_elem_of_singleton.
      intros [Hin| ->]; [by eapply Hfile|done].
Qed.

Lemma stored_strings_fit_their_types_witness :
  reachable sample_state /\
  len (description (evidence_at sample_state 1)) <= 500.
Proof.
  split; [exact sample_state_reachable|].
  destruct (stored_strings_fit_their_types sample_state
              sample_state_reachable) as (Hrec & _).
  exact (proj1 (proj2 (Hrec 1))).
Defined.

(** ** The event log *)

Lemma omap_snoc {A B} (f : A -> option B) l x :
  omap f (l ++ [x]) = omap f l ++ match f x with Some y => [y] | None => [] end.
Proof. rewrite omap_app. simpl. by destruct (f x). Qed.

(** X11: a call that goes through appends exactly one event to the
    log, the one that describes it, and a call that is rejected
    appends none; the log is never rewritten. *)
Theorem every_call_logs_once tx c s :
  (exists r, transact tx c s = (Reverted r, s) /\
             logs (step s (tx, c)) = logs s) \/
  (exists v, transact tx c s = (Success v, step s (tx, c)) /\
             logs (step s (tx, c)) = logs s ++ [event_of tx s c]).
Proof.
  rewrite step_guarded, transact_guarded. unfold guarded.
  destruct (first_failure (checks_of tx s c)) as [r|].
  - left. by exists r.
  - right. exists (returned_by s c). split; [done|]. apply logs_effect.
Qed.

(** X12: the log tells the custody story. In every reachable state the
    custody history of an id is what its registration and transfer
    events spell out, in order; its files are what its file events
    spell out; and the registration events carry the ids 1, 2, ... up
    to the evidence count, in that order. *)
Theorem log_replays_histories_and_files s :
  reachable s ->
  (forall i, history_at s i = omap (custody_of_event i) (logs s)) /\
  (forall i, files_at s i = omap (file_of_event i) (logs s)) /\
  omap registered_id (logs s) = seqZ 1 (evidence_counter s).
Proof.
  induction 1 as [d|s tx c Hr (Hh & Hf & Hc)].
  - unfold history_at, files_at, init; simpl.
    split_and!; try done; intros i; by rewrite lookup_empty.
  - destruct (step_cases s tx c) as [(r & _ & ->)|[G ->]]; [done|].
    pose proof (inv_counter s (reachable_inv s Hr)) as [Hc0 _].
    split_and!.
    + intros i. rewrite history_at_effect, logs_effect, omap_snoc, <- !Hh.
      destruct c; simpl; rewrite ?app_nil_r; try done.
      * case_decide; [by subst i | by rewrite app_nil_r].
      * case_decide; [by subst i | by rewrite app_nil_r].
    + intros i. rewrite files_at_effect, logs_effect, omap_snoc, <- !Hf.
      destruct c; simpl; rewrite ?app_nil_r; try done.
      case_decide; [by subst i | by rewrite app_nil_r].
    + rewrite evidence_counter_effect, logs_effect, omap_snoc, Hc.
      destruct c; simpl; rewrite ?app_nil_r; try done.
      rewrite (seqZ_app 1 (evidence_counter s) 1) by lia.
      by replace (1 + evidence_counter s) with (evidence_counter s + 1) by lia.
Qed.

Lemma log_replays_histories_and_files_witness :
  reachable sample_state /\
  history_at sample_state 1 = omap (custody_of_event 1) (logs sample_state).
Proof.
  split; [exact sample_state_reachable|].
  exact (proj1 (log_replays_histories_and_files sample_state
                  sample_state_reachable) 1).
Defined.

Lemma status_rank_allowed a b :
  allowed a b = true -> (status_rank a < status_rank b)%nat.
Proof.
  unfold allowed, status_rank, Status_Collected, Status_InAnalysis,
    Status_Archived, Status_Invalidated.
  intros H. repeat (case_bool_decide; simpl in H); try done; lia.
Qed.

Lemma status_rank_bound st : (status_rank st <= 2)%nat.
Proof. unfold status_rank. repeat case_bool_decide; lia. Qed.

Lemma status_log_inv s :
  reachable s ->
  forall i,
    let changes := omap (status_of_event i) (logs s) in
    (evidence_exists s i = false -> changes = []) /\
    (evidence_exists s i = true ->
     status (evidence_at s i) = default Status_Collected (last changes) /\
     (length changes <= status_rank (status (evidence_at s i)))%nat).
Proof.
  induction 1 as [d|s tx c Hr IH]; intros i.
  - unfold evidence_exists, evidence_at, init; simpl.
    rewrite lookup_empty. simpl. by split.
  - destruct (step_cases s tx c) as [(r & _ & ->)|[G ->]]; [apply IH|].
    pose proof (reachable_inv s Hr) as Hinv.
    destruct (IH i) as [IHno IHyes].
    unfold evidence_exists in *.
    rewrite logs_effect, omap_snoc, evidence_at_effect.
    destruct c; simpl; rewrite ?app_nil_r; try done; cbn [checks_of] in G.
    + (* register_evidence *)
      case_decide; [subst i|done]. simpl.
      pose proof (inv_counter s Hinv) as [Hc0 _].
      destruct (fresh_id_unused s (evidence_counter s + 1) Hinv ltac:(lia))
        as [Hno _].
      rewrite (IHno Hno). by split.
    + (* transfer_custody *)
      case_decide; [subst i|done]. simpl. done.
    + (* set_status *)
      case_decide; [subst i|by rewrite app_nil_r]. simpl.
      assert (Hex : exists_ (evidence_at s evidence_id) = true).
      { apply first_failure_None in G. unfold status_checks in G.
        by apply Forall_cons in G as [? _]. }
      destruct (inv_evidence s Hinv _ Hex) as (_ & _ & Hst & _).
      apply status_checks_pass in G as (_ & _ & _ & Hal); [|done].
      split; [congruence|]. intros _.
      rewrite last_snoc, length_app. simpl. split; [done|].
      destruct (IHyes Hex) as [_ Hlen].
      pose proof (status_rank_allowed _ _ Hal). lia.
Qed.

(** X13: the log tells the status too, and it is short. The status of
    an existing evidence is the new status of its last status-change
    event, or Collected if it has none; no id that does not exist has
    such an event; and no evidence ever has more than two of them. *)
Theorem log_replays_status s i :
  reachable s ->
  let changes := omap (status_of_event i) (logs s) in
  (evidence_exists s i = true ->
   status (evidence_at s i) = default Status_Collected (last changes)) /\
  (evidence_exists s i = false -> changes = []) /\
  (length changes <= 2)%nat.
Proof.
  intros Hr changes.
  destruct (status_log_inv s Hr i) as [Hno Hyes]. fold changes in Hno, Hyes.
  split_and!.
  - intros Hi. by apply Hyes.
  - exact Hno.
  - destruct (evidence_exists s i) eqn:Hi.
    + destruct (Hyes eq_refl) as [_ Hlen].
      pose proof (status_rank_bound (status (evidence_at s i))). lia.
    + rewrite (Hno eq_refl). simpl. lia.
Qed.

Lemma log_replays_status_witness :
  reachable archived_state /\
  (length (omap (status_of_event 1) (logs archived_state)) <= 2)%nat.
Proof.
  assert (Hr : reachable archived_state)
    by apply reachable_run, sample_state_reachable.
  split; [exact Hr|].
  exact (proj2 (proj2 (log_replays_status archived_state 1 Hr))).
Defined.

(** ** Custody, continued *)

(** X14: the custody history of an existing evidence always opens with
    its registration: the first entry goes from the null principal to
    the creator, carries the creation time of the record and the reason
    "Initial registration". *)
Theorem history_opens_with_registration s i :
  reachable s -> evidence_exists s i = true ->
  history_at s i !! 0%nat =
  Some (mkCustodyEvent empty_address (creator (evidence_at s i))
                       (created_at (evidence_at s i))
                       "Initial registration").
Proof.
  intros Hr. revert i.
  change "Initial registration" with initial_registration_reason.
  induction Hr as [d|s tx c Hr IH]; intros i.
  - unfold evidence_exists, evidence_at, init; simpl.
    by rewrite lookup_empty.
  - destruct (step_cases s tx c) as [(r & _ & ->)|[G ->]]; [apply IH|].
    pose proof (reachable_inv s Hr) as Hinv.
    unfold evidence_exists in *.
    rewrite evidence_at_effect, history_at_effect.
    destruct c; try apply IH.
    + case_decide; [subst i|apply IH]. simpl. intros _.
      pose proof (inv_counter s Hinv) as [Hc0 _].
      by destruct (fresh_id_unused s (evidence_counter s + 1) Hinv
                     ltac:(lia)) as [_ ->].
    + case_decide; [subst i|apply IH]. simpl. intros Hi.
      rewrite lookup_app_l; [by apply IH|].
      destruct (inv_evidence s Hinv _ Hi) as (_ & _ & _ & Hne & _).
      destruct (history_at s evidence_id); [done|simpl; lia].
    + case_decide; [subst i|apply IH]. simpl. apply IH.
Qed.

Lemma history_opens_with_registration_witness :
  reachable archived_state /\ evidence_exists archived_state 1 = true /\
  history_at archived_state 1 !! 0%nat
  = Some (mkCustodyEvent 0 1 101 "Initial registration").
Proof.
  assert (Hr : reachable archived_state)
    by apply reachable_run, sample_state_reachable.
  assert (He : evidence_exists archived_state 1 = true) by (by vm_compute).
  split; [exact Hr|]. split; [exact He|].
  rewrite (history_opens_with_registration archived_state 1 Hr He).
  by vm_compute.
Defined.

Lemma transfer_checks_set_roles tx s m i n why :
  n <> msg_sender tx ->
  transfer_checks tx (set_roles (msg_sender tx) m s) i n why
  = transfer_checks tx s i n why.
Proof.
  intros Hn. unfold transfer_checks.
  rewrite roles_at_set_roles, decide_False by done. reflexivity.
Qed.

(** X15: a transfer looks at the roles of the recipient only. Whatever
    role mask the caller has, none included, the outcome of
    [transfer_custody] to another principal is the same; and a
    principal without any role can never be handed evidence. *)
Theorem transfer_depends_on_recipient_roles_only tx s i n why :
  (forall m,
     n <> msg_sender tx ->
     (succeeds (transfer_custody tx i n why)
               (set_roles (msg_sender tx) m s) <->
      succeeds (transfer_custody tx i n why) s)) /\
  (roles_at s n = 0 ->
   exists r, call (transfer_custody tx i n why) s = (Reverted r, s)).
Proof.
  split.
  - intros m Hn.
    rewrite (succeeds_iff _ _ _ _ _
               (transfer_custody_body tx i n why
                  (set_roles (msg_sender tx) m s))).
    rewrite (succeeds_iff _ _ _ _ _ (transfer_custody_body tx i n why s)).
    by rewrite transfer_checks_set_roles.
  - intros Hz.
    destruct (first_failure_of_false (transfer_checks tx s i n why) false
                New_custodian_has_no_role) as [r Hr]; [|done|].
    + unfold transfer_checks.
      rewrite (bool_decide_eq_false_2 (roles_at s n <> 0)) by (by intros H).
      do 5 right. left.
    + exists r. eapply call_reverted; [apply transfer_custody_body|done].
Qed.

(** ** Registration and deployment *)

(** X16: in a reachable state [register_evidence] succeeds exactly
    when the caller holds POLICE, the digest is non-zero and not yet
    registered, description, case id and locator are non-empty and
    within the bounds of their types (500, 50 and 100 bytes), and the
    counter is below the largest [uint256]; the capacity of the
    custody history never stands in the way of a registration. An
    argument beyond its bound is rejected before anything else is
    looked at; with arguments that fit, a caller without POLICE is
    turned away whatever else they hold. *)
Theorem register_evidence_succeeds_iff tx s h cid d cas :
  reachable s ->
  (succeeds (register_evidence tx h cid d cas) s <->
     holds_role s (msg_sender tx) ROLE_POLICE = true /\
     h <> empty_bytes32 /\
     0 < len d <= 500 /\ 0 < len cas <= 50 /\ 0 < len cid <= 100 /\
     registered_at s h = false /\ evidence_counter s < MAX_UINT256) /\
  (~ (len cid <= 100 /\ len d <= 500 /\ len cas <= 50) ->
   call (register_evidence tx h cid d cas) s
     = (Reverted Argument_out_of_bounds, s) /\
   error_kind Argument_out_of_bounds = ValidationError) /\
  (len cid <= 100 -> len d <= 500 -> len cas <= 50 ->
   holds_role s (msg_sender tx) ROLE_POLICE = false ->
   call (register_evidence tx h cid d cas) s = (Reverted Unauthorized_role, s) /\
   error_kind Unauthorized_role = AuthorizationError).
Proof.
  intros Hr. pose proof (reachable_inv s Hr) as Hinv.
  pose proof (inv_counter s Hinv) as [Hc0 _].
  destruct (fresh_id_unused s (evidence_counter s + 1) Hinv ltac:(lia))
    as [_ Hempty].
  split_and!.
  - unfold succeeds. rewrite register_evidence_call. unfold guarded.
    destruct (first_failure (register_checks tx s h cid d cas)) as [r|] eqn:E.
    + split; [by intros (? & ? & ?)|].
      intros (Hp & Hh & Hd & Hcas & Hcid & Hnew & Hmax).
      assert (first_failure (register_checks tx s h cid d cas) = None)
        as Hnone; [|congruence].
      apply register_checks_pass. rewrite Hempty.
      unfold CUSTODY_CAPACITY. simpl. split_and!; try done; lia.
    + split; [|eauto].
      intros _. apply register_checks_pass in E
        as (? & ? & ? & ? & ? & ? & ? & _ & ? & ? & ?).
      split_and!; try done; lia.
  - intros Hbig. split; [|done].
    rewrite register_evidence_call. unfold guarded, register_checks.
    cbn [first_failure].
    by repeat case_bool_decide; try tauto.
  - intros H1 H2 H3 Hno. split; [|done].
    rewrite register_evidence_call. unfold guarded, register_checks.
    cbn [first_failure].
    rewrite (bool_decide_eq_true_2 (len cid <= 100)) by done.
    rewrite (bool_decide_eq_true_2 (len d <= 500)) by done.
    rewrite (bool_decide_eq_true_2 (len cas <= 50)) by done.
    by rewrite Hno.
Qed.

Lemma register_evidence_succeeds_iff_witness :
  reachable sample_state /\
  succeeds (register_evidence (mkEnv 1 102) 9 "QmB" "second" "CASE-2")
           sample_state.
Proof.
  split; [exact sample_state_reachable|].
  apply (register_evidence_succeeds_iff (mkEnv 1 102) sample_state 9 "QmB"
           "second" "CASE-2" sample_state_reachable).
  by vm_compute.
Defined.

(** X17: a freshly deployed ledger. The deployer is the admin and holds
    each of the four roles, nobody else holds any, there is no
    evidence, and the deployer's first registration with a non-zero
    digest and non-empty strings within the bounds of their types gets
    id 1. *)
Theorem fresh_ledger d :
  admin (init d) = d /\
  (forall r, is_role r -> call (has_role d r) (init d) = (Success true, init d)) /\
  (forall a mask, a <> d ->
     call (has_role a mask) (init d) = (Success false, init d)) /\
  call get_evidence_count (init d) = (Success 0, init d) /\
  (forall tx h cid dsc cas,
     msg_sender tx = d -> h <> empty_bytes32 ->
     0 < len dsc <= 500 -> 0 < len cas <= 50 -> 0 < len cid <= 100 ->
     exists s', call (register_evidence tx h cid dsc cas) (init d)
                = (Success 1, s')).
Proof.
  split_and!; try done.
  - intros r Hr. rewrite has_role_call. f_equal. f_equal.
    unfold holds_role. rewrite roles_at_init, decide_True by done.
    apply bool_decide_eq_true_2.
    destruct Hr as [-> | [-> | [-> | ->]]]; by vm_compute.
  - intros a mask Ha. rewrite has_role_call. f_equal. f_equal.
    unfold holds_role. rewrite roles_at_init, decide_False by done.
    apply bool_decide_eq_false_2. intros H. apply H. apply Z.land_0_l.
  - intros tx h cid dsc cas Hs Hh Hd Hc Hcid.
    eexists. rewrite register_evidence_call. unfold guarded.
    assert (first_failure (register_checks tx (init d) h cid dsc cas) = None)
      as ->; [|reflexivity].
    apply register_checks_pass. split_and!; try done; try lia.
    unfold holds_role. rewrite Hs, roles_at_init, decide_True by done.
    by vm_compute.
Qed.

(** * Properties of the backend *)

(** ** Status numbers across the layers *)

Lemma set_status_small_number tx s i n u s' :
  reachable s -> 0 <= n <= 3 ->
  call (set_status tx i n) s = (Success u, s') ->
  n = 2 /\ status (evidence_at s i) = Status_Collected /\
  status (evidence_at s' i) = Status_InAnalysis /\
  s' = step s (tx, Call_set_status i n).
Proof.
  intros Hr Hn Hcall. pose proof (reachable_inv s Hr) as Hinv.
  apply (call_success _ _ _ _ _ _ _ (set_status_body tx i n s))
    in Hcall as (Hpass & _ & ->).
  assert (Hex : evidence_exists s i = true).
  { apply first_failure_None in Hpass. unfold status_checks in Hpass.
    by apply Forall_cons in Hpass as [? _]. }
  destruct (inv_evidence s Hinv i Hex) as (_ & _ & Hst & _).
  pose proof Hpass as Hpass'.
  apply status_checks_pass in Hpass as (_ & _ & _ & Hal); [|done].
  assert (n = 2 /\ status (evidence_at s i) = Status_Collected) as [-> Hold].
  { revert Hal. unfold allowed, Status_Collected, Status_InAnalysis,
      Status_Archived, Status_Invalidated.
    intros Hal. repeat (case_bool_decide; simpl in Hal); try done; lia. }
  split_and!; try done.
  - change (status_effect tx s i 2)
      with (effect_of tx s (Call_set_status i 2)).
    rewrite evidence_at_effect. by rewrite decide_True.
  - rewrite step_guarded. cbn [checks_of]. by rewrite Hpass'.
Qed.

Lemma changeStatus_cases ready tx evidenceId statusNum s :
  reachable s ->
  let r := changeStatus ready tx evidenceId statusNum s in
  r.2 = s \/
  exists i,
    evidenceId = Some i /\ statusNum = Some 2 /\
    r.1 = Status_changed i 2 "Archived" /\
    status (evidence_at s i) = Status_Collected /\
    status (evidence_at r.2 i) = Status_InAnalysis /\
    r.2 = step s (tx, Call_set_status i 2).
Proof.
  intros Hr r. unfold r, changeStatus.
  destruct evidenceId as [i|]; [|by left].
  case_bool_decide; [by left|].
  destruct statusNum as [n|]; [|by left].
  destruct (bool_decide (n < 0) || bool_decide (n > 3)) eqn:Hrange;
    [by left|].
  apply orb_false_iff in Hrange as [H0%bool_decide_eq_false
                                    H3%bool_decide_eq_false].
  unfold setStatus.
  destruct (negb ready); [by left|].
  destruct (negb (encodable i && encodable n)); [by left|].
  destruct (call (set_status tx i n) s) as [[u|rv] s'] eqn:Hcall.
  - destruct (set_status_small_number tx s i n u s' Hr ltac:(lia) Hcall)
      as (-> & Hold & Hnew & Hs').
    right. exists i. simpl. split_and!; try done.
  - left. simpl.
    unfold call in Hcall. destruct (set_status tx i n s) as [[?|?] ?];
      [discriminate Hcall | by injection Hcall as _ <-].
Qed.

(** X18: the status endpoint can only start an analysis. The
    controller lets the status numbers 0 to 3 through and the contract
    reads them as status flags, of which only 2, InAnalysis, is among
    them as a target: whatever the request, [changeStatus] either
    leaves the ledger as it is or moves a Collected evidence to
    InAnalysis on status number 2, and answers with the status text
    "Archived". *)
Theorem changeStatus_only_starts_analysis ready tx evidenceId statusNum s :
  reachable s ->
  let r := changeStatus ready tx evidenceId statusNum s in
  r.2 = s \/
  exists i,
    evidenceId = Some i /\ statusNum = Some 2 /\
    r.1 = Status_changed i 2 "Archived" /\
    status (evidence_at s i) = Status_Collected /\
    status (evidence_at r.2 i) = Status_InAnalysis /\
    r.2 = step s (tx, Call_set_status i 2).
Proof. intros Hr r. unfold r. by apply changeStatus_cases. Qed.

Lemma changeStatus_only_starts_analysis_witness :
  let r := changeStatus true (mkEnv 2 102) (Some 1) (Some 2) sample_state in
  reachable sample_state /\
  r.1 = Status_changed 1 2 "Archived" /\
  status (evidence_at r.2 1) = Status_InAnalysis.
Proof.
  intros r. split; [exact sample_state_reachable|].
  destruct (changeStatus_only_starts_analysis true (mkEnv 2 102) (Some 1)
              (Some 2) sample_state sample_state_reachable)
    as [Hsame|(i & Hi & _ & Hresp & _ & Hnew & _)].
  - exfalso. fold r in Hsame.
    assert (Hst : status (evidence_at r.2 1) = 2) by (by vm_compute).
    rewrite Hsame in Hst. by vm_compute in Hst.
  - injection Hi as <-. split; [exact Hresp | exact Hnew].
Defined.

Lemma status_requests_step ready s req j :
  reachable s -> evidence_exists s j = true ->
  let s' := (changeStatus ready req.1.1 req.1.2 req.2 s).2 in
  reachable s' /\ evidence_exists s' j = true /\
  (status (evidence_at s' j) = status (evidence_at s j) \/
   status (evidence_at s' j) = Status_InAnalysis).
Proof.
  intros Hr Hj. destruct req as [[tx oi] on]. cbn [fst snd].
  pose proof (changeStatus_cases ready tx oi on s Hr) as H.
  cbv zeta in *.
  set (s' := (changeStatus ready tx oi on s).2) in *.
  destruct H as [Hsame|(i & _ & _ & _ & Hold & Hnew & Hstep)].
  - rewrite Hsame. split_and!; [done|done|by left].
  - split_and!.
    + rewrite Hstep. by constructor.
    + rewrite Hstep. apply step_exists; [by apply reachable_inv|done].
    + destruct (decide (i = j)) as [->|Hne]; [by right|left].
      rewrite Hstep.
      destruct (decide (status (evidence_at
                  (step s (tx, Call_set_status i 2)) j)
                = status (evidence_at s j))) as [|Hch]; [done|].
      destruct (step_status_frame s tx _ j Hch (reachable_inv s Hr) Hj)
        as (st & Heq & _).
      injection Heq as -> _. done.
Qed.

(** X19: so an evidence never reaches Archived or Invalidated through
    the status endpoint: after any sequence of requests to it, an
    existing evidence that was not in a terminal status still is not. *)
Theorem status_endpoint_never_terminates ready s requests j :
  reachable s -> evidence_exists s j = true ->
  ~ terminal (status (evidence_at s j)) ->
  ~ terminal (status (evidence_at (status_requests ready s requests) j)).
Proof.
  revert s. induction requests as [|req rest IH]; intros s Hr Hj Hnt; [done|].
  simpl. destruct (status_requests_step ready s req j Hr Hj)
    as (Hr' & Hj' & Hst).
  apply IH; try done.
  destruct Hst as [->| ->]; [done|].
  unfold terminal, Status_InAnalysis, Status_Archived, Status_Invalidated.
  lia.
Qed.

Lemma status_endpoint_never_terminates_witness :
  ~ terminal (status (evidence_at
      (status_requests true sample_state
         [ (mkEnv 2 102, Some 1, Some 2); (mkEnv 2 103, Some 1, Some 3) ]) 1)).
Proof.
  apply (status_endpoint_never_terminates true sample_state _ 1
           sample_state_reachable).
  - by vm_compute.
  - vm_compute. intros [H|H]; discriminate H.
Defined.

(** ** What the service reads *)

Section Reads.

Variable Number : Z -> Z.
Hypothesis Number_safe :
  forall n, 0 <= n <= MAX_SAFE_INTEGER -> Number n = n.

Lemma getEvidence_existing i s :
  reachable s -> evidence_exists s i = true -> i <= MAX_SAFE_INTEGER ->
  exists ev,
    getEvidence Number true i s = inr ev /\
    js_id ev = i /\ js_exists ev = true /\
    js_status ev = status (evidence_at s i) /\
    js_fileHash ev = file_hash (evidence_at s i) /\
    js_ipfsCid ev = ipfs_cid (evidence_at s i) /\
    js_description ev = description (evidence_at s i) /\
    js_caseId ev = case_id (evidence_at s i) /\
    js_creator ev = creator (evidence_at s i) /\
    js_currentCustodian ev = current_custodian (evidence_at s i).
Proof.
  intros Hr Hi Hsafe. pose proof (reachable_inv s Hr) as Hinv.
  destruct (inv_evidence s Hinv i Hi) as ([Hi1 _] & Hid & Hst & _).
  unfold getEvidence, get_evidence. rewrite view_call, Hi. simpl.
  unfold encodable. rewrite bool_decide_eq_true_2 by lia. simpl.
  eexists. split; [reflexivity|]. simpl.
  rewrite Hid. split_and!; try done.
  - apply Number_safe. lia.
  - apply Number_safe. unfold MAX_SAFE_INTEGER.
    destruct Hst as [-> | [-> | [-> | ->]]]; by vm_compute.
Qed.

(** X20: the status text the API shows is not the status. For an
    existing evidence read through [getEvidence], [getStatusText] of
    the status field is "In Analysis" when the evidence is Collected,
    "Archived" when it is InAnalysis and "Unknown" when it is Archived
    or Invalidated: the contract's status flags are 1, 2, 4 and 8 and
    the table of [getStatusText] is keyed 0 to 3. *)
Theorem status_text_is_shifted s i :
  reachable s -> evidence_exists s i = true -> i <= MAX_SAFE_INTEGER ->
  exists ev,
    getEvidence Number true i s = inr ev /\
    (status (evidence_at s i) = Status_Collected ->
     getStatusText (js_status ev) = "In Analysis") /\
    (status (evidence_at s i) = Status_InAnalysis ->
     getStatusText (js_status ev) = "Archived") /\
    (terminal (status (evidence_at s i)) ->
     getStatusText (js_status ev) = "Unknown") /\
    getStatusText (js_status ev) <> "Collected" /\
    getStatusText (js_status ev) <> "Invalidated".
Proof.
  intros Hr Hi Hsafe.
  destruct (getEvidence_existing i s Hr Hi Hsafe)
    as (ev & Hget & _ & _ & Hst & _).
  exists ev. split; [done|]. rewrite Hst.
  destruct (inv_evidence s (reachable_inv s Hr) i Hi) as (_ & _ & His & _).
  unfold terminal.
  destruct His as [-> | [-> | [-> | ->]]]; split_and!; try done;
    intros [?|?]; done.
Qed.

Lemma read_loop ids :
  forall s t acc,
    reachable s ->
    (forall i, i ∈ ids -> evidence_exists s i = true /\ i <= MAX_SAFE_INTEGER) ->
    forall between,
    let r := foldl (read_next Number true between) (run s t, acc) ids in
    (exists t', r.1 = run s t') /\
    map js_id r.2 = map js_id acc ++ ids /\
    (forall ev, ev ∈ r.2 ->
       ev ∈ acc \/
       (js_exists ev = true /\
        js_fileHash ev = file_hash (evidence_at s (js_id ev)) /\
        js_ipfsCid ev = ipfs_cid (evidence_at s (js_id ev)) /\
        js_description ev = description (evidence_at s (js_id ev)) /\
        js_caseId ev = case_id (evidence_at s (js_id ev)) /\
        js_creator ev = creator (evidence_at s (js_id ev)))).
Proof.
  induction ids as [|i ids IH]; intros s t acc Hr Hids between.
  - simpl. split_and!; [by exists t | by rewrite app_nil_r | by left].
  - simpl.
    destruct (Hids i ltac:(left)) as [Hi Hsafe].
    pose proof (reachable_inv s Hr) as Hinv.
    assert (Hr1 : reachable (run s (t ++ between i)))
      by by apply reachable_run.
    assert (Hi1 : evidence_exists (run s (t ++ between i)) i = true)
      by by apply run_exists.
    destruct (getEvidence_existing i _ Hr1 Hi1 Hsafe)
      as (ev & Hget & Hid & Hex & _ & Hh & Hcid & Hd & Hcas & Hcr & _).
    destruct (run_same_identity s (t ++ between i) i Hinv Hi)
      as (_ & Eh & Ecid & Ed & Ecas & Ecr & _).
    assert (Hnext : read_next Number true between (run s t, acc) i
                    = (run s (t ++ between i), acc ++ [ev])).
    { unfold read_next. cbn [fst snd].
      rewrite <- run_app_trace. by rewrite Hget, Hex. }
    rewrite Hnext.
    destruct (IH s (t ++ between i) (acc ++ [ev]) Hr
                (fun j Hj => Hids j ltac:(by right)) between)
      as (Ht & Hmap & Hall).
    split_and!.
    + exact Ht.
    + rewrite Hmap, map_app. simpl. rewrite Hid. by rewrite <- app_assoc.
    + intros ev' Hin. destruct (Hall ev' Hin) as [Hacc|?]; [|by right].
      apply elem_of_app in Hacc as [?|Hnew%list_elem_of_singleton];
        [by left|right]. subst ev'. rewrite Hid.
      split_and!; congruence.
Qed.

(** X21: [getAllEvidences] lists every evidence once. While the count
    is a safe integer, the list it returns has exactly the ids 1 up to
    the count it read, in that order, whatever calls other clients get
    mined between its reads; and each entry carries the digest,
    locator, description, case id and creator the evidence was
    registered with. *)
Theorem getAllEvidences_lists_every_evidence s between :
  reachable s -> evidence_counter s <= MAX_SAFE_INTEGER ->
  exists l,
    getAllEvidences Number true between s = inr l /\
    map js_id l = seqZ 1 (evidence_counter s) /\
    (forall ev, ev ∈ l ->
       js_exists ev = true /\
       js_fileHash ev = file_hash (evidence_at s (js_id ev)) /\
       js_ipfsCid ev = ipfs_cid (evidence_at s (js_id ev)) /\
       js_description ev = description (evidence_at s (js_id ev)) /\
       js_caseId ev = case_id (evidence_at s (js_id ev)) /\
       js_creator ev = creator (evidence_at s (js_id ev))).
Proof.
  intros Hr Hsafe. pose proof (inv_counter s (reachable_inv s Hr)) as [Hc0 _].
  unfold getAllEvidences, getEvidenceCount. simpl.
  rewrite Number_safe by lia.
  eexists. split; [reflexivity|].
  destruct (read_loop (seqZ 1 (evidence_counter s)) s [] [] Hr) with
    (between := between) as (_ & Hmap & Hall).
  - intros i Hi%elem_of_seqZ. split; [|lia].
    apply all_ids_exist; [done|lia].
  - split; [exact Hmap|].
    intros ev Hin. destruct (Hall ev Hin) as [Hnil|?]; [|done].
    by apply elem_of_nil in Hnil.
Qed.

End Reads.

Lemma status_text_is_shifted_witness :
  exists ev,
    getEvidence (fun n => n) true 1 sample_state = inr ev /\
    getStatusText (js_status ev) = "In Analysis".
Proof.
  destruct (status_text_is_shifted (fun n => n) (fun n _ => eq_refl)
              sample_state 1 sample_state_reachable)
    as (ev & Hget & Hcollected & _); [by vm_compute | by vm_compute |].
  exists ev. split; [exact Hget|]. apply Hcollected. by vm_compute.
Defined.

Lemma getAllEvidences_lists_every_evidence_witness :
  exists l,
    getAllEvidences (fun n => n) true (fun _ => []) sample_state = inr l /\
    map js_id l = seqZ 1 (evidence_counter sample_state).
Proof.
  destruct (getAllEvidences_lists_every_evidence (fun n => n)
              (fun n _ => eq_refl) sample_state (fun _ => [])
              sample_state_reachable) as (l & Hget & Hids & _);
    [by vm_compute|].
  exists l. split; [exact Hget | exact Hids].
Defined.

(** ** Hashing *)

Lemma char_toLowerCase_hex c :
  lower_hex_digit c = true -> char_toLowerCase c = c.
Proof.
  unfold lower_hex_digit, char_toLowerCase. intros H.
  repeat match goal with
         | H : context [(?a <=? ?b)%nat] |- _ =>
             destruct (Nat.leb_spec a b)
         | |- context [(?a <=? ?b)%nat] => destruct (Nat.leb_spec a b)
         end; simpl in *; try done; lia.
Qed.

Lemma toLowerCase_hex h :
  all_chars lower_hex_digit h = true -> toLowerCase h = h.
Proof.
  induction h as [|c h IH]; simpl; [done|].
  intros [Hc Hh]%andb_true_iff. by rewrite char_toLowerCase_hex, IH.
Qed.

Lemma no_0x_in_hex e :
  all_chars lower_hex_digit (toLowerCase e) = true ->
  startsWith e "0x" = false.
Proof.
  unfold startsWith. intros Hhex.
  destruct (String.prefix "0x" e) eqn:E; [|done].
  apply String.prefix_correct in E.
  destruct e as [|c1 [|c2 e]]; simpl in E; try discriminate E.
  injection E as -> -> _. simpl in Hhex. discriminate Hhex.
Qed.

Lemma startsWith_0x e : startsWith (String.append "0x" e) "0x" = true.
Proof.
  unfold startsWith. apply String.prefix_correct. simpl. by destruct e.
Qed.

Lemma startsWith_0X e : startsWith (String.append "0X" e) "0x" = false.
Proof.
  unfold startsWith.
  destruct (String.prefix "0x" (String.append "0X" e)) eqn:E; [|done].
  apply String.prefix_correct in E. simpl in E. destruct e; discriminate E.
Qed.

Lemma toLowerCase_0x e :
  toLowerCase (String.append "0x" e) = String.append "0x" (toLowerCase e).
Proof. reflexivity. Qed.

Lemma toLowerCase_0X e :
  toLowerCase (String.append "0X" e) = String.append "0x" (toLowerCase e).
Proof. reflexivity. Qed.

Section HashProperties.

Variable Buffer : Type.
Variable sha256_hex : Buffer -> string.
Hypothesis digest_is_hex :
  forall b, String.length (sha256_hex b) = 64%nat /\
            all_chars lower_hex_digit (sha256_hex b) = true.

(** X22: [verifyHash] accepts the digest of the buffer as
    [computeHash] returns it, and also without the "0x" prefix and in
    any letter case; it does not accept it behind an upper-case "0X".
    What [computeHash] returns passes the format check of the
    service's [registerEvidence]: "0x" and 66 characters. *)
Theorem verifyHash_accepts_the_digest b :
  verifyHash Buffer sha256_hex b (computeHash Buffer sha256_hex b) = true /\
  (forall e, toLowerCase e = sha256_hex b ->
     verifyHash Buffer sha256_hex b e = true /\
     verifyHash Buffer sha256_hex b (String.append "0x" e) = true) /\
  verifyHash Buffer sha256_hex b (String.append "0X" (sha256_hex b)) = false /\
  hash_format_ok (computeHash Buffer sha256_hex b) = true.
Proof.
  destruct (digest_is_hex b) as [Hlen Hhex].
  pose proof (toLowerCase_hex _ Hhex) as Hlow.
  split_and!.
  - unfold verifyHash, computeHash. rewrite startsWith_0x.
    by apply bool_decide_eq_true_2.
  - intros e He.
    assert (Hno : startsWith e "0x" = false).
    { apply no_0x_in_hex. by rewrite He. }
    split.
    + unfold verifyHash, computeHash. rewrite Hno.
      apply bool_decide_eq_true_2. by rewrite !toLowerCase_0x, Hlow, He.
    + unfold verifyHash, computeHash. rewrite startsWith_0x.
      apply bool_decide_eq_true_2. by rewrite !toLowerCase_0x, Hlow, He.
  - unfold verifyHash, computeHash. rewrite startsWith_0X.
    apply bool_decide_eq_false_2.
    rewrite !toLowerCase_0x, toLowerCase_0X, Hlow. intros E.
    apply (f_equal String.length) in E. simpl in E. lia.
  - unfold hash_format_ok, computeHash. rewrite startsWith_0x.
    change (String.length (String.append "0x" (sha256_hex b)))
      with (S (S (String.length (sha256_hex b)))).
    rewrite Hlen. by rewrite bool_decide_eq_true_2.
Qed.

End HashProperties.

Lemma verifyHash_accepts_the_digest_witness :
  let digest (_ : unit) :=
    "9f86d081884c7d659a2feaa0c55ad015a3bf4f1b2b0b822cd15d6c15b0f00a08" in
  verifyHash unit digest tt
    "9F86D081884C7D659A2FEAA0C55AD015A3BF4F1B2B0B822CD15D6C15B0F00A08" = true.
Proof.
  intros digest.
  apply (verifyHash_accepts_the_digest unit digest);
    [intros []; by vm_compute | by vm_compute].
Defined.

(** ** Registration through the service *)

Section RegistrationProperties.

Variable Number : Z -> Z.
Hypothesis Number_safe :
  forall n, 0 <= n <= MAX_SAFE_INTEGER -> Number n = n.
Variable bytes32_of_hex : string -> option Z.

(** X23: the id the service reports is the id the contract assigned.
    While ids are safe integers, [registerEvidence] of the service
    returns an id exactly when the contract call goes through, and
    then it is the id the call returned; it is read from the
    [EvidenceRegistered] event of the receipt, which is always there,
    so the fallback to the counter is never taken. *)
Theorem registerEvidence_reports_the_assigned_id
    tx fileHash h cid d cas s :
  reachable s -> evidence_counter s < MAX_SAFE_INTEGER ->
  hash_format_ok fileHash = true -> bytes32_of_hex fileHash = Some h ->
  let r := registerEvidence Number bytes32_of_hex true tx fileHash cid d cas s in
  (forall i s',
     call (register_evidence tx h cid d cas) s = (Success i, s') ->
     r = (inr i, s') /\
     registered_in (drop (length (logs s)) (logs s')) = Some i) /\
  (forall rv s',
     call (register_evidence tx h cid d cas) s = (Reverted rv, s') ->
     r = (inl (Call_reverted rv), s)).
Proof.
  intros Hr Hsafe Hfmt Hdec r. unfold r, registerEvidence.
  unfold hash_format_ok in Hfmt. apply negb_true_iff in Hfmt.
  rewrite Hfmt, Hdec. simpl.
  pose proof (inv_counter s (reachable_inv s Hr)) as [Hc0 _].
  split.
  - intros i s' Hcall. rewrite Hcall.
    rewrite register_evidence_call in Hcall.
    apply guarded_success in Hcall as (_ & -> & ->).
    change (register_effect tx s h cid d cas)
      with (effect_of tx s (Call_register_evidence h cid d cas)).
    rewrite logs_effect, drop_app_length. simpl.
    rewrite Number_safe by lia. done.
  - intros rv s' Hcall. rewrite Hcall.
    rewrite register_evidence_call in Hcall.
    by apply guarded_reverted in Hcall as (_ & ->).
Qed.

End RegistrationProperties.

Lemma registerEvidence_reports_the_assigned_id_witness :
  let fileHash :=
    "0x0000000000000000000000000000000000000000000000000000000000000009" in
  (registerEvidence (fun n => n) (fun _ => Some 9) true (mkEnv 1 102)
                    fileHash "QmB" "second" "CASE-2" sample_state).1
  = inr 2.
Proof.
  intros fileHash.
  destruct (registerEvidence_reports_the_assigned_id (fun n => n)
              (fun n _ => eq_refl) (fun _ => Some 9) (mkEnv 1 102) fileHash 9
              "QmB" "second" "CASE-2" sample_state sample_state_reachable)
    as [Hok _]; [by vm_compute | by vm_compute | by vm_compute |].
  destruct (call (register_evidence (mkEnv 1 102) 9 "QmB" "second" "CASE-2")
                 sample_state) as [res s'] eqn:Hcall.
  assert (Hres : res = Success 2).
  { change res with (res, s').1. rewrite <- Hcall. by vm_compute. }
  subst res. destruct (Hok 2 s' eq_refl) as [-> _]. reflexivity.
Defined.
